(** * vault-plugin-secrets-oauthapp: provider factories and the credential endpoint

    A shallow embedding of [pkg/provider/basic.go] and
    [pkg/backend/path_creds.go].  Go strings are byte strings ([string]),
    Go [int] is [Z], [map[string]string] is [gmap string string], and a Go
    [(value, error)] pair of which exactly one side is non-nil is a
    [result]. *)

From Stdlib Require Import ZArith Ascii String.
From stdpp Require Import gmap strings list.

Local Open Scope Z_scope.
Local Open Scope string_scope.

(** ** Errors

    The sentinel errors of the two packages, the structured [OptionError]
    of the provider package, [oauth2.RetrieveError] (the provider answered
    with an OAuth error body), and any other error value (transport,
    storage, encoding). *)

Inductive error : Type :=
  | ErrNoProviderWithVersion
  | ErrNoOptions
  | ErrAuthRequired
  | OptionError (Option Message : string)
  | ErrNotConfigured
  | ErrInvalidCredentials
  | RetrieveError (body : string)
  | OtherError (msg : string).

#[global] Instance error_eq_dec : EqDecision error.
Proof. solve_decision. Defined.

Inductive result (A : Type) : Type :=
  | Ok (a : A)
  | Err (e : error).
Arguments Ok {A} a.
Arguments Err {A} e.

(** A text between double quotes. *)
Definition quoted (s : string) : string :=
  String (Ascii.ascii_of_nat 34) (s +:+ String (Ascii.ascii_of_nat 34) EmptyString).

(** ** golang.org/x/oauth2: endpoints, configurations, tokens

    The library types the two packages build and pass around.  An instant
    is a number of nanoseconds counted from Go's zero [time.Time], so that
    [IsZero] is equality with [0]. *)

Module oauth2.

(** [oauth2.AuthStyle] and [oauth2.Endpoint]. *)
Inductive AuthStyle : Type :=
  | AuthStyleAutoDetect
  | AuthStyleInParams
  | AuthStyleInHeader.

Record Endpoint : Type := mkEndpoint {
  AuthURL : string;
  TokenURL : string;
  EndpointAuthStyle : AuthStyle
}.

(** [oauth2.Config] and [clientcredentials.Config], with the fields the
    builders set. *)
Record OAuth2Config : Type := mkOAuth2Config {
  ClientID : string;
  ClientSecret : string;
  ConfigEndpoint : Endpoint;
  RedirectURL : string;
  Scopes : list string
}.

Record ClientCredentialsConfig : Type := mkClientCredentialsConfig {
  ccClientID : string;
  ccClientSecret : string;
  ccTokenURL : string;
  ccScopes : list string
}.

(** A handle on a caller-supplied [http.Client]; [context.WithValue(ctx,
    oauth2.HTTPClient, c)] makes the library use it. *)
Variant HTTPClient : Type := CustomClient (tag : string).

Record Token : Type := mkToken {
  AccessToken : string;
  TokenType : string;
  RefreshToken : string;
  Expiry : Z
}.

Definition IsZero (t : Z) : bool := Z.eqb t 0.

(** [expiryDelta = 10 * time.Second] *)
Definition expiryDelta : Z := 10 * 1000000000.

(** [Token.expired]: [t.Expiry.Round(0).Add(-expiryDelta).Before(timeNow())] *)
Definition expired (now : Z) (t : Token) : bool :=
  if IsZero (Expiry t) then false
  else Z.ltb (Expiry t - expiryDelta) now.

(** [Token.Valid] on a non-nil token. *)
Definition Valid (now : Z) (t : Token) : bool :=
  negb (String.eqb (AccessToken t) EmptyString) && negb (expired now t).

(** [strings.EqualFold(s, target)] for a [target] of lower-case ASCII
    letters: a rune of [s] matches a letter when it is that letter, its
    upper case, or, for the letter s, U+017F (bytes C5 BF), the one other
    rune in the simple-folding orbit of a letter used below. *)
Fixpoint EqualFold (s target : list ascii) : bool :=
  match target, s with
  | [], [] => true
  | c :: target', b :: s' =>
      let nb := Ascii.N_of_ascii b in
      let nc := Ascii.N_of_ascii c in
      if (nb =? nc)%N || ((65 <=? nb)%N && (nb <=? 90)%N && (nb + 32 =? nc)%N)
      then EqualFold s' target'
      else if (nc =? 115)%N && (nb =? 197)%N then
        match s' with
        | b2 :: s'' => (Ascii.N_of_ascii b2 =? 191)%N && EqualFold s'' target'
        | [] => false
        end
      else false
  | _, _ => false
  end.

(** [Token.Type] *)
Definition Type_ (t : Token) : string :=
  let tt := list_ascii_of_string (TokenType t) in
  if EqualFold tt (list_ascii_of_string "bearer") then "Bearer"
  else if EqualFold tt (list_ascii_of_string "mac") then "MAC"
  else if EqualFold tt (list_ascii_of_string "basic") then "Basic"
  else if negb (String.eqb (TokenType t) EmptyString) then TokenType t
  else "Bearer".

(** The library entry points that go to the network, as the data of the
    call: [Config.Exchange(ctx, code)], [Config.TokenSource(ctx, t)] and
    the client-credentials [Config.Token(ctx)] / [Config.TokenSource(ctx)],
    each with the client that [ctx] carries, if any. *)
Variant TokenSource : Type :=
  | ConfigTokenSource (client : option HTTPClient) (conf : OAuth2Config) (t : Token)
  | ClientCredentialsTokenSource (client : option HTTPClient)
      (conf : ClientCredentialsConfig).

Variant TokenCall : Type :=
  | ConfigExchange (client : option HTTPClient) (conf : OAuth2Config) (code : string)
  | ClientCredentialsToken (client : option HTTPClient) (conf : ClientCredentialsConfig)
  | SourceToken (ts : TokenSource).

End oauth2.

(** ** Package provider *)

Module provider.
Import oauth2.

Record basicAuthCodeURLConfigBuilder : Type := mkAuthCodeURLConfigBuilder {
  acConfig : OAuth2Config
}.

Record basicExchangeConfig : Type := mkExchangeConfig {
  ecConfig : OAuth2Config;
  ecClient : option HTTPClient
}.

Record basicExchangeConfigBuilder : Type := mkExchangeConfigBuilder {
  ebConfig : OAuth2Config;
  ebClient : option HTTPClient
}.

Record tokenExchangeConfig : Type := mkTokenExchangeConfig {
  tcConfig : ClientCredentialsConfig;
  tcClient : option HTTPClient
}.

Record basicTokenConfigBuilder : Type := mkTokenConfigBuilder {
  tbConfig : ClientCredentialsConfig;
  tbClient : option HTTPClient
}.

Definition set_RedirectURL (c : OAuth2Config) (u : string) : OAuth2Config :=
  mkOAuth2Config (ClientID c) (ClientSecret c) (ConfigEndpoint c) u (Scopes c).

Definition set_Scopes (c : OAuth2Config) (s : list string) : OAuth2Config :=
  mkOAuth2Config (ClientID c) (ClientSecret c) (ConfigEndpoint c) (RedirectURL c) s.

Definition acWithRedirectURL (cb : basicAuthCodeURLConfigBuilder) (u : string) :=
  mkAuthCodeURLConfigBuilder (set_RedirectURL (acConfig cb) u).

Definition acWithScopes (cb : basicAuthCodeURLConfigBuilder) (s : list string) :=
  mkAuthCodeURLConfigBuilder (set_Scopes (acConfig cb) s).

Definition acBuild (cb : basicAuthCodeURLConfigBuilder) : OAuth2Config := acConfig cb.

Definition ebWithHTTPClient (cb : basicExchangeConfigBuilder) (cl : HTTPClient) :=
  mkExchangeConfigBuilder (ebConfig cb) (Some cl).

Definition ebWithRedirectURL (cb : basicExchangeConfigBuilder) (u : string) :=
  mkExchangeConfigBuilder (set_RedirectURL (ebConfig cb) u) (ebClient cb).

Definition ebBuild (cb : basicExchangeConfigBuilder) : basicExchangeConfig :=
  mkExchangeConfig (ebConfig cb) (ebClient cb).

Definition tbWithHTTPClient (cb : basicTokenConfigBuilder) (cl : HTTPClient) :=
  mkTokenConfigBuilder (tbConfig cb) (Some cl).

Definition tbWithScopes (cb : basicTokenConfigBuilder) (s : list string) :=
  mkTokenConfigBuilder
    (mkClientCredentialsConfig (ccClientID (tbConfig cb)) (ccClientSecret (tbConfig cb))
       (ccTokenURL (tbConfig cb)) s)
    (tbClient cb).

Definition tbBuild (cb : basicTokenConfigBuilder) : tokenExchangeConfig :=
  mkTokenExchangeConfig (tbConfig cb) (tbClient cb).

(** The methods of [basicExchangeConfig] and [tokenExchangeConfig] put the
    client, when there is one, into the context and delegate to the
    library. *)
Definition Exchange (c : basicExchangeConfig) (code : string) : TokenCall :=
  ConfigExchange (ecClient c) (ecConfig c) code.

Definition ecTokenSource (c : basicExchangeConfig) (t : Token) : TokenSource :=
  ConfigTokenSource (ecClient c) (ecConfig c) t.

Definition tcToken (c : tokenExchangeConfig) : TokenCall :=
  ClientCredentialsToken (tcClient c) (tcConfig c).

Definition tcTokenSource (c : tokenExchangeConfig) : TokenSource :=
  ClientCredentialsTokenSource (tcClient c) (tcConfig c).

(** [type basic struct].  A struct literal that omits
    [isAuthorizationRequired] leaves it at Go's zero value [false]. *)
Record basic : Type := mkBasic {
  vsn : Z;
  endpoint : Endpoint;
  isAuthorizationRequired : bool
}.

Definition Version (b : basic) : Z := vsn b.

Definition IsAuthorizationRequired (b : basic) : bool := isAuthorizationRequired b.

Definition NewAuthCodeURLConfigBuilder (b : basic) (clientID : string)
  : basicAuthCodeURLConfigBuilder :=
  mkAuthCodeURLConfigBuilder (mkOAuth2Config clientID EmptyString (endpoint b) EmptyString []).

Definition NewExchangeConfigBuilder (b : basic) (clientID clientSecret : string)
  : basicExchangeConfigBuilder :=
  mkExchangeConfigBuilder (mkOAuth2Config clientID clientSecret (endpoint b) EmptyString []) None.

Definition NewTokenConfigBuilder (b : basic) (clientID clientSecret : string)
  : result basicTokenConfigBuilder :=
  if IsAuthorizationRequired b then Err ErrAuthRequired
  else Ok (mkTokenConfigBuilder
             (mkClientCredentialsConfig clientID clientSecret (TokenURL (endpoint b)) [])
             None).

Definition FactoryFunc : Type := Z -> gmap string string -> result basic.

(** [opts[k]]: a missing key reads as the empty string. *)
Definition opt (opts : gmap string string) (k : string) : string :=
  default EmptyString (opts !! k).

(** [switch vsn { case -1, 1: default: return ErrNoProviderWithVersion }] *)
Definition vsn_known (v : Z) : bool := Z.eqb v (-1) || Z.eqb v 1.

Definition basicFactory (ep : Endpoint) : FactoryFunc :=
  fun v opts =>
    if negb (vsn_known v) then Err ErrNoProviderWithVersion
    else if negb (Nat.eqb (size opts) 0) then Err ErrNoOptions
    else Ok (mkBasic 1 ep false).

Section Factories.

(** The endpoint tables of [golang.org/x/oauth2/...] and the OIDC
    discovery call of [github.com/coreos/go-oidc] are outside the
    repository: the endpoints are data, and discovery answers with an
    endpoint or with an error text. *)
Variables bitbucketEndpoint githubEndpoint gitlabEndpoint
          googleEndpoint slackEndpoint : Endpoint.
Variable AzureADEndpoint : string -> Endpoint.
Variable oidcNewProvider : string -> Endpoint + string.

Definition azureADFactory : FactoryFunc :=
  fun v opts =>
    if negb (vsn_known v) then Err ErrNoProviderWithVersion
    else
      let tenant := opt opts "tenant" in
      if String.eqb tenant EmptyString then Err (OptionError "tenant" "tenant is required")
      else Ok (mkBasic 1 (AzureADEndpoint tenant) false).

(** The first half of [customFactory]: where the two URLs come from. *)
Definition customURLs (opts : gmap string string) : result (string * string) :=
  let discoveryURL := opt opts "discovery_url" in
  if negb (String.eqb discoveryURL EmptyString) then
    match oidcNewProvider discoveryURL with
    | inr msg =>
        Err (OptionError "discovery_url" ("error making new provider: " +:+ msg))
    | inl ep => Ok (AuthURL ep, TokenURL ep)
    end
  else Ok (opt opts "auth_code_url", opt opts "token_url").

Definition customAuthStyle (opts : gmap string string) : result AuthStyle :=
  let s := opt opts "auth_style" in
  if String.eqb s "in_header" then Ok AuthStyleInHeader
  else if String.eqb s "in_params" then Ok AuthStyleInParams
  else if String.eqb s EmptyString then Ok AuthStyleAutoDetect
  else Err (OptionError "auth_style"
              ("unknown authentication style; expected one of " +:+ quoted "in_header"
               +:+ " or " +:+ quoted "in_params")).

Definition customFactory (isAuthorizationRequired : bool) : FactoryFunc :=
  fun v opts =>
    if negb (vsn_known v) then Err ErrNoProviderWithVersion
    else
      match customURLs opts with
      | Err e => Err e
      | Ok (authURL, tokenURL) =>
          if isAuthorizationRequired && String.eqb authURL EmptyString then
            Err (OptionError "auth_code_url" "authorization code URL is required")
          else if String.eqb tokenURL EmptyString then
            Err (OptionError "token_url" "token URL is required")
          else
            match customAuthStyle opts with
            | Err e => Err e
            | Ok authStyle =>
                Ok (mkBasic 1 (mkEndpoint authURL tokenURL authStyle)
                      isAuthorizationRequired)
            end
      end.

(** [func init()]: the registrations, in source order. *)
Definition GlobalRegistry : list (string * FactoryFunc) :=
  [ ("bitbucket", basicFactory bitbucketEndpoint);
    ("github", basicFactory githubEndpoint);
    ("gitlab", basicFactory gitlabEndpoint);
    ("google", basicFactory googleEndpoint);
    ("microsoft_azure_ad", azureADFactory);
    ("slack", basicFactory slackEndpoint);
    ("custom", customFactory true);
    ("custom_client_credentials", customFactory false) ].

(** *** What each factory accepts

    The options under which a factory of the registry builds a provider,
    read off the registry name: the named services take no option,
    Azure AD needs a tenant, and the custom providers need their URLs,
    from discovery or from the options, and a known authentication
    style. *)
Definition custom_options_ok (required : bool) (opts : gmap string string) : Prop :=
  (exists authURL tokenURL,
      (if String.eqb (opt opts "discovery_url") EmptyString
       then authURL = opt opts "auth_code_url" /\ tokenURL = opt opts "token_url"
       else exists ep, oidcNewProvider (opt opts "discovery_url") = inl ep
                       /\ authURL = AuthURL ep /\ tokenURL = TokenURL ep)
      /\ (required = true -> authURL <> EmptyString)
      /\ tokenURL <> EmptyString)
  /\ (opt opts "auth_style" = "in_header" \/ opt opts "auth_style" = "in_params"
      \/ opt opts "auth_style" = EmptyString).

Definition options_ok (name : string) (opts : gmap string string) : Prop :=
  if String.eqb name "microsoft_azure_ad" then opt opts "tenant" <> EmptyString
  else if String.eqb name "custom" then custom_options_ok true opts
  else if String.eqb name "custom_client_credentials" then custom_options_ok false opts
  else size opts = 0%nat.

End Factories.

(** A factory that knows the versions -1 and 1 only, builds version 1 under
    either, and succeeds exactly on the options [ok]. *)
Definition versioned (f : FactoryFunc) (ok : gmap string string -> Prop) : Prop :=
  forall (v : Z) (opts : gmap string string),
    (v = -1 \/ v = 1 ->
       ((exists p, f v opts = Ok p) <-> ok opts)
       /\ f v opts = f 1 opts
       /\ f v opts <> Err ErrNoProviderWithVersion)
    /\ (v <> -1 -> v <> 1 -> f v opts = Err ErrNoProviderWithVersion)
    /\ (forall p, f v opts = Ok p -> Version p = 1).

End provider.

(** ** crypto/sha1

    [sha1.Sum] of Go's standard library (FIPS 180-4, SHA-1) on 32-bit words
    held in [Z], with the wrap-around written out. *)

Module sha1.

Definition w32 (x : Z) : Z := Z.land x 0xFFFFFFFF.

Definition rotl (n : Z) (x : Z) : Z :=
  w32 (Z.lor (Z.shiftl x n) (Z.shiftr x (32 - n))).

Definition add32 (a b : Z) : Z := w32 (a + b).

Definition not32 (x : Z) : Z := Z.lxor x 0xFFFFFFFF.

Definition byte_val (a : ascii) : Z := Z.of_N (Ascii.N_of_ascii a).

Definition byte_of (x : Z) : ascii := Ascii.ascii_of_N (Z.to_N (Z.land x 0xFF)).

(** Big-endian encodings of the bit length and of a state word. *)
Definition be64 (x : Z) : list Z :=
  map (fun k => Z.land (Z.shiftr x (8 * k)) 0xFF) [7; 6; 5; 4; 3; 2; 1; 0].

Definition be32 (x : Z) : list ascii :=
  map (fun k => byte_of (Z.shiftr x (8 * k))) [3; 2; 1; 0].

Definition word_of (b : list Z) : Z :=
  fold_left (fun acc x => Z.lor (Z.shiftl acc 8) x) b 0.

(** Padding: a one bit, zeros up to 56 modulo 64, the length in bits. *)
Definition pad (msg : list Z) : list Z :=
  let len := Z.of_nat (length msg) in
  msg ++ [0x80] ++ repeat 0 (Z.to_nat ((55 - len) mod 64)) ++ be64 (8 * len).

Fixpoint chunks (fuel : nat) (n : nat) (l : list Z) : list (list Z) :=
  match fuel with
  | O => []
  | S fuel' =>
      match l with
      | [] => []
      | _ => take n l :: chunks fuel' n (drop n l)
      end
  end.

(** The message schedule: sixteen block words extended to eighty. *)
Fixpoint schedule (k : nat) (w : list Z) : list Z :=
  match k with
  | O => w
  | S k' =>
      let n := length w in
      let x := Z.lxor (Z.lxor (nth (n - 3) w 0) (nth (n - 8) w 0))
                      (Z.lxor (nth (n - 14) w 0) (nth (n - 16) w 0)) in
      schedule k' (w ++ [rotl 1 x])
  end.

Definition state : Type := Z * Z * Z * Z * Z.

Definition round (t : nat) (wt : Z) (s : state) : state :=
  let '(a, b, c, d, e) := s in
  let '(f, k) :=
    if (t <? 20)%nat then (Z.lor (Z.land b c) (Z.land (not32 b) d), 0x5A827999)
    else if (t <? 40)%nat then (Z.lxor (Z.lxor b c) d, 0x6ED9EBA1)
    else if (t <? 60)%nat then
      (Z.lor (Z.lor (Z.land b c) (Z.land b d)) (Z.land c d), 0x8F1BBCDC)
    else (Z.lxor (Z.lxor b c) d, 0xCA62C1D6) in
  let temp := add32 (add32 (add32 (add32 (rotl 5 a) f) e) k) wt in
  (temp, a, rotl 30 b, c, d).

Fixpoint rounds (t : nat) (w : list Z) (s : state) : state :=
  match w with
  | [] => s
  | wt :: w' => rounds (S t) w' (round t wt s)
  end.

Definition block (s : state) (blk : list Z) : state :=
  let w := schedule 64 (map word_of (chunks 16 4 blk)) in
  let '(h0, h1, h2, h3, h4) := s in
  let '(a, b, c, d, e) := rounds 0 w s in
  (add32 h0 a, add32 h1 b, add32 h2 c, add32 h3 d, add32 h4 e).

Definition init : state :=
  (0x67452301, 0xEFCDAB89, 0x98BADCFE, 0x10325476, 0xC3D2E1F0).

Definition digest_of (s : state) : list ascii :=
  let '(h0, h1, h2, h3, h4) := s in
  be32 h0 ++ be32 h1 ++ be32 h2 ++ be32 h3 ++ be32 h4.

(** [sha1.Sum(data)]: the 20-byte digest. *)
Definition Sum (data : list ascii) : list ascii :=
  let padded := pad (map byte_val data) in
  digest_of (fold_left block (chunks (length padded) 64 padded) init).

End sha1.

(** ** fmt: the [%x] verb on a byte slice *)

Definition hex_digit (n : N) : ascii :=
  Ascii.ascii_of_N (if (n <? 10)%N then 48 + n else 87 + n)%N.

Fixpoint hex (b : list ascii) : string :=
  match b with
  | [] => EmptyString
  | a :: b' =>
      let n := Ascii.N_of_ascii a in
      String (hex_digit (n / 16)%N) (String (hex_digit (n mod 16)%N) (hex b'))
  end.

Definition bytes_of_string (s : string) : list ascii := list_ascii_of_string s.

(** ** Package backend *)

Module backend.
Import oauth2 provider.

Definition credsPath : string := "creds".
Definition credsPathPrefix : string := credsPath +:+ "/".

(** [credKey] hashes the name and splits the first few bytes into separate
    buckets: [hash[:2]], [hash[2:4]], [hash[4:]]. *)
Definition credKey (name : string) : string :=
  let hash := sha1.Sum (bytes_of_string name) in
  let first := take 2 hash in
  let second := take 2 (drop 2 hash) in
  let rest := drop 4 hash in
  credsPathPrefix +:+ (hex first +:+ "/" +:+ hex second +:+ "/" +:+ hex rest).
Arguments credKey : simpl never.

(** Modelled from the spec: the Config Record, whose declaration is in a
    file of the repository that is not among the sources.  The handlers
    below read [cClientID] and [cClientSecret] only. *)
Record config : Type := mkConfig {
  cProvider : string;
  cProviderVersion : Z;
  cClientID : string;
  cClientSecret : string;
  cProviderOptions : gmap string string;
  cAuthURLParams : gmap string string
}.

(** [logical.Response], with the one field the handlers fill, and
    [logical.ErrorResponse]. *)
Inductive value : Type :=
  | VString (s : string)
  | VTime (t : Z).

Record Response : Type := mkResponse { Data : gmap string value }.

Definition ErrorResponse (text : string) : Response :=
  mkResponse {[ "error" := VString text ]}.

Record StorageEntry : Type := mkStorageEntry { Key : string; Value : string }.

(** [credsFields]: every declared field is a [TypeString]. *)
Definition credsFields : list string :=
  ["name"; "code"; "redirect_url"; "refresh_token"].

(** [framework.FieldData] over [credsFields]: the raw request values, after
    the framework has converted them to the type their field declares,
    strings in [Raw] and string slices in [RawSlices]. *)
Record FieldData : Type := mkFieldData {
  Raw : gmap string string;
  RawSlices : gmap string (list string)
}.

(** [GetOk] answers [(nil, false)] for a key that the schema does not
    declare ([scopes] is such a key), and [Get] falls back to the zero
    value of the field. *)
Definition GetOk (d : FieldData) (k : string) : option string :=
  if bool_decide (k ∈ credsFields) then Raw d !! k else None.

Definition GetOkSlice (d : FieldData) (k : string) : option (list string) :=
  if bool_decide (k ∈ credsFields) then RawSlices d !! k else None.

Definition Get (d : FieldData) (k : string) : string :=
  default EmptyString (GetOk d k).

(** *** Effects

    What a handler does to the world outside its own function: the store
    mutex [b.credMut], the storage of the request, the logger, the clock,
    the token calls of the library, and the two helpers of the backend
    that live in files not among the sources ([getConfig], and
    [config.provider] on the registry; [getRefreshToken]).  A handler is a
    finite tree of such commands. *)
Variant cmd : Type -> Type :=
  | MutLock : cmd unit
  | MutUnlock : cmd unit
  | GetConfig : cmd (result (option config))
  | ConfigProvider (c : config) : cmd (result basic)
  | CallToken (call : TokenCall) : cmd (result Token)
  | LoggerError (msg : string) (e : error) : cmd unit
  | StorageEntryJSON (key : string) (tok : Token) : cmd (result StorageEntry)
  | StoragePut (entry : StorageEntry) : cmd (option error)
  | StorageDelete (key : string) : cmd (option error)
  | GetRefreshToken (key : string) (scopes : option (list string)) (force : bool)
      : cmd (option Token * option error)
  | TimeNow : cmd Z.

Inductive prog (A : Type) : Type :=
  | Ret (a : A)
  | Do {X : Type} (c : cmd X) (k : X -> prog A).
Arguments Ret {A} a.
Arguments Do {A X} c k.

Fixpoint bind {A B : Type} (p : prog A) (f : A -> prog B) : prog B :=
  match p with
  | Ret a => f a
  | Do c k => Do c (fun x => bind (k x) f)
  end.

#[global] Instance prog_ret : MRet prog := fun A a => Ret a.
#[global] Instance prog_bind : MBind prog := fun A B f p => bind p f.

Definition call {X : Type} (c : cmd X) : prog X := Do c Ret.

(** The pair of a response pointer and an error that a handler returns. *)
Definition reply : Type := option Response * option error.

(** [b.credMut.Lock(); defer b.credMut.Unlock()] around the rest of the
    function. *)
Definition locked (body : prog reply) : prog reply :=
  _ ← call MutLock; r ← body; _ ← call MutUnlock; mret r.

Definition credsReadOperation (data : FieldData) : prog reply :=
  let key := credKey (Get data "name") in
  got ← match GetOkSlice data "scopes" with
        | Some scopes => call (GetRefreshToken key (Some scopes) false)
        | None => call (GetRefreshToken key None false)
        end;
  match got with
  | (_, Some ErrNotConfigured) => mret (Some (ErrorResponse "not configured"), None)
  | (_, Some ErrInvalidCredentials) =>
      mret (Some (ErrorResponse "invalid client credentials"), None)
  | (_, Some err) => mret (None, Some err)
  | (None, None) => mret (None, None)
  | (Some tok, None) =>
      now ← call TimeNow;
      if negb (Valid now tok) then mret (Some (ErrorResponse "token expired"), None)
      else
        let rd : gmap string value :=
          <["type" := VString (Type_ tok)]>
            {[ "access_token" := VString (AccessToken tok) ]} in
        let rd :=
          if negb (IsZero (Expiry tok)) then <["expire_time" := VTime (Expiry tok)]> rd
          else rd in
        mret (Some (mkResponse rd), None)
  end.

(** The tail of [credsUpdateOperation], from [b.credMut.Lock()] on. *)
Definition storeToken (key : string) (tok : Token) : prog reply :=
  locked (
    enc ← call (StorageEntryJSON key tok);
    match enc with
    | Err err => mret (None, Some err)
    | Ok entry =>
        perr ← call (StoragePut entry);
        match perr with
        | Some err => mret (None, Some err)
        | None => mret (None, None)
        end
    end).

Definition notSupported : string :=
  "this provider does not support creating credentials. Use " +:+ quoted "read"
  +:+ " command to retrieve token".

Definition credsUpdateOperation (data : FieldData) : prog reply :=
  gc ← call GetConfig;
  match gc with
  | Err err => mret (None, Some err)
  | Ok None => mret (Some (ErrorResponse "not configured"), None)
  | Ok (Some c) =>
      gp ← call (ConfigProvider c);
      match gp with
      | Err err => mret (None, Some err)
      | Ok p =>
          if negb (IsAuthorizationRequired p) then
            mret (Some (ErrorResponse notSupported), None)
          else
            let key := credKey (Get data "name") in
            let cb := NewExchangeConfigBuilder p (cClientID c) (cClientSecret c) in
            match GetOk data "code" with
            | Some code =>
                match GetOk data "refresh_token" with
                | Some _ =>
                    mret (Some (ErrorResponse "cannot use both code and refresh_token"),
                          None)
                | None =>
                    let cb :=
                      match GetOk data "redirect_url" with
                      | Some redirectURL => ebWithRedirectURL cb redirectURL
                      | None => cb
                      end in
                    ex ← call (CallToken (Exchange (ebBuild cb) code));
                    match ex with
                    | Err (RetrieveError body) =>
                        _ ← call (LoggerError "invalid code" (RetrieveError body));
                        mret (Some (ErrorResponse "invalid code"), None)
                    | Err err => mret (None, Some err)
                    | Ok tok => storeToken key tok
                    end
                end
            | None =>
                match GetOk data "refresh_token" with
                | Some refreshToken =>
                    let t := mkToken EmptyString EmptyString refreshToken 0 in
                    ex ← call (CallToken (SourceToken (ecTokenSource (ebBuild cb) t)));
                    match ex with
                    | Err (RetrieveError body) =>
                        _ ← call (LoggerError "invalid refresh_token" (RetrieveError body));
                        mret (Some (ErrorResponse "invalid refresh_token"), None)
                    | Err err => mret (None, Some err)
                    | Ok tok => storeToken key tok
                    end
                | None =>
                    mret (Some (ErrorResponse "missing code or refresh_token"), None)
                end
            end
      end
  end.

Definition credsDeleteOperation (data : FieldData) : prog reply :=
  locked (
    let key := credKey (Get data "name") in
    derr ← call (StorageDelete key);
    match derr with
    | Some err => mret (None, Some err)
    | None => mret (None, None)
    end).

(** *** The world around a handler

    The answers of everything a handler calls but does not define: the
    configuration helper (which reads the request's storage), the
    resolution of the configuration to a provider, the token endpoint, the
    JSON encoder, the storage backend (a failure it reports, if any), the
    [getRefreshToken] helper (which may rewrite the storage) and the
    clock. *)
Record world : Type := mkWorld {
  w_getConfig : gmap string string -> result (option config);
  w_provider : config -> result basic;
  w_token : TokenCall -> result Token;
  w_json : Token -> result string;
  w_put : StorageEntry -> option error;
  w_delete : string -> option error;
  w_getRefreshToken :
    gmap string string -> string -> option (list string) -> bool ->
    (option Token * option error) * gmap string string;
  w_now : Z
}.

(** One command on the storage; the mutex is left to the caller. *)
Definition perform (w : world) {X : Type} (c : cmd X) (s : gmap string string)
  : X * gmap string string :=
  match c in cmd X return X * gmap string string with
  | MutLock => (tt, s)
  | MutUnlock => (tt, s)
  | GetConfig => (w_getConfig w s, s)
  | ConfigProvider c => (w_provider w c, s)
  | CallToken call => (w_token w call, s)
  | LoggerError _ _ => (tt, s)
  | StorageEntryJSON key tok =>
      (match w_json w tok with
       | Ok bytes => Ok (mkStorageEntry key bytes)
       | Err err => Err err
       end, s)
  | StoragePut entry =>
      match w_put w entry with
      | Some err => (Some err, s)
      | None => (None, <[Key entry := Value entry]> s)
      end
  | StorageDelete key =>
      match w_delete w key with
      | Some err => (Some err, s)
      | None => (None, delete key s)
      end
  | GetRefreshToken key scopes force => w_getRefreshToken w s key scopes force
  | TimeNow => (w_now w, s)
  end.

Definition is_lock {X : Type} (c : cmd X) : bool :=
  match c with MutLock => true | _ => false end.

Definition is_unlock {X : Type} (c : cmd X) : bool :=
  match c with MutUnlock => true | _ => false end.

Definition is_token_call {X : Type} (c : cmd X) : bool :=
  match c with CallToken _ => true | _ => false end.

Definition writes_storage {X : Type} (c : cmd X) : bool :=
  match c with StoragePut _ | StorageDelete _ => true | _ => false end.

Definition reads_storage {X : Type} (c : cmd X) : bool :=
  match c with GetConfig => true | _ => false end.

(** *** One handler on its own

    [sync.Mutex] is not reentrant: a second [Lock] by the holder never
    returns, and an [Unlock] of a free mutex is fatal; the run has no
    result in either case. *)
Inductive event : Type :=
  | Ev {X : Type} (c : cmd X) (x : X).

Record store : Type := mkStore {
  entries : gmap string string;
  held : bool
}.

Definition handle (w : world) {X : Type} (c : cmd X) (st : store) : option (X * store) :=
  if is_lock c then
    if held st then None
    else Some (fst (perform w c (entries st)), mkStore (entries st) true)
  else if is_unlock c then
    if held st then Some (fst (perform w c (entries st)), mkStore (entries st) false)
    else None
  else
    let '(x, s) := perform w c (entries st) in Some (x, mkStore s (held st)).

Fixpoint run {A : Type} (w : world) (p : prog A) (st : store)
  : option (A * store * list event) :=
  match p with
  | Ret a => Some (a, st, [])
  | Do c k =>
      match handle w c st with
      | None => None
      | Some (x, st') =>
          match run w (k x) st' with
          | None => None
          | Some (a, st'', tr) => Some (a, st'', Ev c x :: tr)
          end
      end
  end.

(** [pathCreds]: the operations of the path and their callbacks. *)
Variant Operation : Type := ReadOperation | UpdateOperation | DeleteOperation.

Definition pathCreds (op : Operation) : FieldData -> prog reply :=
  match op with
  | ReadOperation => credsReadOperation
  | UpdateOperation => credsUpdateOperation
  | DeleteOperation => credsDeleteOperation
  end.

(** *** Lock discipline of a handler

    [disciplined allowed h p]: started with the mutex held by it or not
    ([h]), the handler [p] takes the mutex only when it does not hold it,
    releases it only when it holds it, returns without it, and runs a
    command [c] only where [allowed h c]; whatever the commands answer. *)
Fixpoint disciplined (allowed : bool -> forall X, cmd X -> bool) (h : bool)
    (p : prog reply) : Prop :=
  match p with
  | Ret _ => h = false
  | Do c k =>
      if is_lock c then h = false /\ forall x, disciplined allowed true (k x)
      else if is_unlock c then h = true /\ forall x, disciplined allowed false (k x)
      else allowed h _ c = true /\ forall x, disciplined allowed h (k x)
  end.

(** Nothing at all happens without the mutex. *)
Definition all_locked (h : bool) (X : Type) (c : cmd X) : bool := h.

(** Storage is written with the mutex held, and the configuration read and
    the token calls happen without it. *)
Definition calls_unlocked (h : bool) (X : Type) (c : cmd X) : bool :=
  implb (writes_storage c) h && implb (is_token_call c || reads_storage c) (negb h).

(** Storage accesses and token calls all happen with the mutex held. *)
Definition calls_locked (h : bool) (X : Type) (c : cmd X) : bool :=
  implb (writes_storage c || reads_storage c || is_token_call c) h.

(** The token calls, at least, happen with the mutex held. *)
Definition exchange_locked (h : bool) (X : Type) (c : cmd X) : bool :=
  implb (is_token_call c) h.

(** *** Handlers side by side

    The host runs each request on a goroutine of its own.  A goroutine is
    at a point of its handler, or in a token call whose answer has not come
    back; the storage and the owner of [b.credMut] are shared.  A schedule
    names the goroutine that moves next; a goroutine that asks for a taken
    mutex cannot move. *)
Inductive thread : Type :=
  | Active (p : prog reply)
  | InFlight (call : TokenCall) (k : result Token -> prog reply).

Record pool : Type := mkPool {
  threads : list thread;
  shared : gmap string string;
  owner : option nat
}.

Definition cmd_step (w : world) (i : nat) {X : Type} (c : cmd X)
  : (X -> prog reply) -> gmap string string -> option nat ->
    option (thread * gmap string string * option nat) :=
  match c in cmd X
        return (X -> prog reply) -> gmap string string -> option nat ->
               option (thread * gmap string string * option nat) with
  | MutLock => fun k s o =>
      match o with
      | None => Some (Active (k tt), s, Some i)
      | Some _ => None
      end
  | MutUnlock => fun k s o =>
      if bool_decide (o = Some i) then Some (Active (k tt), s, None) else None
  | CallToken call => fun k s o => Some (InFlight call k, s, o)
  | c' => fun k s o =>
      let '(x, s') := perform w c' s in Some (Active (k x), s', o)
  end.

Definition thread_step (w : world) (i : nat) (t : thread)
    (s : gmap string string) (o : option nat)
  : option (thread * gmap string string * option nat) :=
  match t with
  | InFlight call k => Some (Active (k (w_token w call)), s, o)
  | Active (Ret _) => None
  | Active (Do c k) => cmd_step w i c k s o
  end.

Definition pool_step (w : world) (i : nat) (g : pool) : option pool :=
  match threads g !! i with
  | None => None
  | Some t =>
      match thread_step w i t (shared g) (owner g) with
      | None => None
      | Some (t', s', o') => Some (mkPool (<[i := t']> (threads g)) s' o')
      end
  end.

Fixpoint run_schedule (w : world) (sched : list nat) (g : pool) : option pool :=
  match sched with
  | [] => Some g
  | i :: sched' =>
      match pool_step w i g with
      | None => None
      | Some g' => run_schedule w sched' g'
      end
  end.

Definition start (reqs : list (Operation * FieldData)) (s : gmap string string) : pool :=
  mkPool ((fun r => Active (pathCreds (fst r) (snd r))) <$> reqs) s None.

Definition in_flight (t : thread) : bool :=
  match t with InFlight _ _ => true | Active _ => false end.

(** The goroutine's next step writes the storage. *)
Definition about_to_write (t : thread) : bool :=
  match t with
  | Active (Do c _) => writes_storage c
  | _ => false
  end.

(** The same discipline, read off the trace of a run that started with the
    mutex held or not. *)
Fixpoint trace_allowed (allowed : bool -> forall X, cmd X -> bool) (h : bool)
    (tr : list event) : bool :=
  match tr with
  | [] => true
  | Ev c _ :: tr' =>
      if is_lock c then negb h && trace_allowed allowed true tr'
      else if is_unlock c then h && trace_allowed allowed false tr'
      else allowed h _ c && trace_allowed allowed h tr'
  end.

(** The discipline of a goroutine that holds the mutex or not, and of a
    pool: each goroutine is disciplined, as the holder if it is the owner. *)
Definition thread_ok (allowed : bool -> forall X, cmd X -> bool) (h : bool)
    (t : thread) : Prop :=
  match t with
  | Active p => disciplined allowed h p
  | InFlight call k =>
      allowed h _ (CallToken call) = true /\ forall r, disciplined allowed h (k r)
  end.

Definition pool_ok (allowed : bool -> forall X, cmd X -> bool) (g : pool) : Prop :=
  forall i t, threads g !! i = Some t ->
              thread_ok allowed (bool_decide (owner g = Some i)) t.

(** The encoding of the record, [logical.StorageEntryJSON]. *)
Definition is_encoding {X : Type} (c : cmd X) : bool :=
  match c with StorageEntryJSON _ _ => true | _ => false end.

(** The mutex is held for the encoding and the write of the record, or for
    the delete, and for nothing else; and none of these is done without
    it. *)
Definition window_only (h : bool) (X : Type) (c : cmd X) : bool :=
  Bool.eqb h (is_encoding c || writes_storage c).

(** A trace from its first [Lock] on. *)
Fixpoint from_lock (tr : list event) : list event :=
  match tr with
  | [] => []
  | Ev c x :: tr' => if is_lock c then tr else from_lock tr'
  end.

(** The goroutine's next step is the encoding or the write of a record, or
    a delete; respectively its [Unlock]. *)
Definition at_record (t : thread) : bool :=
  match t with
  | Active (Do c _) => is_encoding c || writes_storage c
  | _ => false
  end.

Definition at_unlock (t : thread) : bool :=
  match t with
  | Active (Do c _) => is_unlock c
  | _ => false
  end.

(** The token calls of a trace with their answers, and the entries it put
    and the keys it deleted. *)
Definition token_answer (e : event) : option (TokenCall * result Token) :=
  match e with
  | Ev c x =>
      match c in cmd X return X -> option (TokenCall * result Token) with
      | CallToken call => fun r => Some (call, r)
      | _ => fun _ => None
      end x
  end.

Definition token_answers (tr : list event) : list (TokenCall * result Token) :=
  omap token_answer tr.

Definition storage_write (e : event) : option string :=
  match e with
  | Ev c _ =>
      match c with
      | StoragePut entry => Some (Key entry)
      | StorageDelete key => Some key
      | _ => None
      end
  end.

Definition storage_writes (tr : list event) : list string := omap storage_write tr.

End backend.

(** ** Sample data for the closed examples *)

Module samples.
Import oauth2 provider backend.

Definition ep : Endpoint :=
  mkEndpoint "https://example.test/authorize" "https://example.test/token"
    AuthStyleAutoDetect.

Definition azure (tenant : string) : Endpoint :=
  mkEndpoint ("https://login.example.test/" +:+ tenant +:+ "/authorize")
    ("https://login.example.test/" +:+ tenant +:+ "/token") AuthStyleAutoDetect.

Definition no_discovery (url : string) : Endpoint + string := inr "no route to host".

Definition cfg : config :=
  mkConfig "custom" 1 "client-id" "client-secret"
    {[ "auth_code_url" := "https://example.test/authorize";
       "token_url" := "https://example.test/token" ]} ∅.

Definition three_legged : basic := mkBasic 1 ep true.
Definition two_legged : basic := mkBasic 1 ep false.

Definition fresh : Token := mkToken "new-token" "bearer" "refresh-1" 0.
Definition stale : Token := mkToken "old-token" "bearer" EmptyString 5000000000.

(** A world with a healthy storage backend: the configuration that
    [getConfig] finds, the provider it resolves to, the answer of the token
    endpoint, and what [getRefreshToken] hands back. *)
Definition world_of (gc : result (option config)) (p : result basic)
    (answer : result Token) (got : option Token * option error) (now : Z) : world :=
  mkWorld (fun _ => gc) (fun _ => p) (fun _ => answer)
    (fun t => Ok (AccessToken t)) (fun _ => None) (fun _ => None)
    (fun s _ _ _ => (got, s)) now.

Definition with_code : FieldData :=
  mkFieldData {[ "name" := "a"; "code" := "X" ]} ∅.

Definition with_both : FieldData :=
  mkFieldData {[ "name" := "a"; "code" := "X"; "refresh_token" := "R" ]} ∅.

Definition with_refresh_token : FieldData :=
  mkFieldData {[ "name" := "a"; "refresh_token" := "R" ]} ∅.

Definition name_only : FieldData := mkFieldData {[ "name" := "a" ]} ∅.

Definition empty_store : store := mkStore ∅ false.

(** A configured three-legged provider whose token endpoint answers. *)
Definition healthy : world :=
  world_of (Ok (Some cfg)) (Ok three_legged) (Ok fresh) (None, None) 0.

(** The same, with a token endpoint that rejects the grant. *)
Definition rejecting : world :=
  world_of (Ok (Some cfg)) (Ok three_legged) (Err (RetrieveError "invalid_grant"))
    (None, None) 0.

Definition write_and_delete : list (Operation * FieldData) :=
  [(UpdateOperation, with_code); (DeleteOperation, name_only)].

Definition two_writes : list (Operation * FieldData) :=
  [(UpdateOperation, with_code); (UpdateOperation, with_code)].

End samples.

(** ** The route of the credential endpoint

    [pathCreds] gives the framework the pattern
    [credsPathPrefix + credentialNameRegex("name") + `$`]; the framework
    anchors a pattern at the start of the path too.  Regular expressions
    are kept as syntax and matched by derivatives. *)

Module route.
Import backend.

Inductive regex : Type :=
  | Never
  | Eps
  | EndText
  | Class (p : ascii -> bool)
  | Cat (r1 r2 : regex)
  | Alt (r1 r2 : regex)
  | Star (r : regex)
  | Group (name : option string) (r : regex).

(** [r?], [r+] and a literal text. *)
Definition Opt (r : regex) : regex := Alt r Eps.
Definition Plus (r : regex) : regex := Cat r (Star r).

Definition is_char (c a : ascii) : bool := Ascii.eqb c a.

Fixpoint Lit (s : list ascii) : regex :=
  match s with
  | [] => Eps
  | c :: s' => Cat (Class (is_char c)) (Lit s')
  end.

Fixpoint nullable (r : regex) : bool :=
  match r with
  | Never => false
  | Eps => true
  | EndText => true
  | Class _ => false
  | Cat r1 r2 => nullable r1 && nullable r2
  | Alt r1 r2 => nullable r1 || nullable r2
  | Star _ => true
  | Group _ r => nullable r
  end.

Fixpoint deriv (a : ascii) (r : regex) : regex :=
  match r with
  | Never => Never
  | Eps => Never
  | EndText => Never
  | Class p => if p a then Eps else Never
  | Cat r1 r2 =>
      if nullable r1 then Alt (Cat (deriv a r1) r2) (deriv a r2)
      else Cat (deriv a r1) r2
  | Alt r1 r2 => Alt (deriv a r1) (deriv a r2)
  | Star r => Cat (deriv a r) (Star r)
  | Group _ r => deriv a r
  end.

(** Does the whole text match? *)
Fixpoint matches (r : regex) (s : list ascii) : bool :=
  match s with
  | [] => nullable r
  | a :: s' => matches (deriv a r) s'
  end.

(** [\w]: an ASCII letter, a digit or the underscore. *)
Definition is_word (a : ascii) : bool :=
  let n := Ascii.N_of_ascii a in
  ((48 <=? n) && (n <=? 57) || (65 <=? n) && (n <=? 90)
   || (97 <=? n) && (n <=? 122) || (n =? 95))%N.

(** The class of [credentialNameRegex]: a word character or one of
    [. @ ~ ! _ , : ^ -]. *)
Definition in_class (a : ascii) : bool :=
  is_word a
  || existsb (Ascii.eqb a) (list_ascii_of_string ".@~!_,:^-").

(** [(?P<name>\w(([\w.@~!_,:^-]+)?\w)?)] *)
Definition credentialNameRegex (name : string) : regex :=
  Group (Some name)
    (Cat (Class is_word)
       (Opt (Group None
               (Cat (Opt (Group None (Plus (Class in_class)))) (Class is_word))))).

Definition Pattern : regex :=
  Cat (Lit (list_ascii_of_string credsPathPrefix))
    (Cat (credentialNameRegex "name") EndText).

Definition routed (path : string) : bool := matches Pattern (list_ascii_of_string path).

(** What the pattern comes to, said without a regular expression: a name is
    not empty, starts and ends with a word character, and is made of
    characters of the class. *)
Definition name_ok (n : list ascii) : bool :=
  match n with
  | [] => false
  | c :: t => is_word c && is_word (List.last t c) && forallb in_class t
  end.

End route.

(** ** The builders on the heap

    The builders of [basic.go] are pointers: [WithRedirectURL] writes
    through [cb.config], a pointer to an [oauth2.Config] that [Build] hands
    on without a copy, and [WithHTTPClient] writes the [client] field of the
    builder, which [Build] copies.  Configurations and builders live in a
    heap; a dereference of an address that holds nothing has no result. *)

Module heap.
Import oauth2 provider.

Record builderObj : Type := mkBuilderObj {
  bo_config : nat;
  bo_client : option HTTPClient
}.

Record exchangeObj : Type := mkExchangeObj {
  eo_config : nat;
  eo_client : option HTTPClient
}.

Record heap : Type := mkHeap {
  configs : gmap nat OAuth2Config;
  builders : gmap nat builderObj
}.

Definition NewExchangeConfigBuilder (b : basic) (clientID clientSecret : string)
    (h : heap) : nat * heap :=
  let pc := fresh (dom (configs h)) in
  let pb := fresh (dom (builders h)) in
  (pb,
   mkHeap (<[pc := mkOAuth2Config clientID clientSecret (endpoint b) EmptyString []]>
             (configs h))
          (<[pb := mkBuilderObj pc None]> (builders h))).

Definition WithHTTPClient (cb : nat) (client : HTTPClient) (h : heap) : option heap :=
  match builders h !! cb with
  | None => None
  | Some o =>
      Some (mkHeap (configs h)
                   (<[cb := mkBuilderObj (bo_config o) (Some client)]> (builders h)))
  end.

Definition WithRedirectURL (cb : nat) (redirectURL : string) (h : heap) : option heap :=
  match builders h !! cb with
  | None => None
  | Some o =>
      match configs h !! bo_config o with
      | None => None
      | Some c =>
          Some (mkHeap (<[bo_config o := set_RedirectURL c redirectURL]> (configs h))
                       (builders h))
      end
  end.

Definition Build (cb : nat) (h : heap) : option exchangeObj :=
  match builders h !! cb with
  | None => None
  | Some o => Some (mkExchangeObj (bo_config o) (bo_client o))
  end.

(** [basicExchangeConfig.Exchange]: the configuration is read when the call
    is made. *)
Definition Exchange (c : exchangeObj) (code : string) (h : heap) : option TokenCall :=
  match configs h !! eo_config c with
  | None => None
  | Some conf => Some (ConfigExchange (eo_client c) conf code)
  end.

(** A run of builder calls, on the heap and on the values of [provider]. *)
Variant setter : Type :=
  | SetClient (client : HTTPClient)
  | SetRedirectURL (redirectURL : string).

Definition apply_heap (cb : nat) (f : setter) (h : heap) : option heap :=
  match f with
  | SetClient client => WithHTTPClient cb client h
  | SetRedirectURL u => WithRedirectURL cb u h
  end.

Fixpoint chain_heap (cb : nat) (fs : list setter) (h : heap) : option heap :=
  match fs with
  | [] => Some h
  | f :: fs' =>
      match apply_heap cb f h with
      | None => None
      | Some h' => chain_heap cb fs' h'
      end
  end.

Definition apply_value (f : setter) (cb : basicExchangeConfigBuilder)
  : basicExchangeConfigBuilder :=
  match f with
  | SetClient client => ebWithHTTPClient cb client
  | SetRedirectURL u => ebWithRedirectURL cb u
  end.

Definition chain_value (fs : list setter) (cb : basicExchangeConfigBuilder)
  : basicExchangeConfigBuilder :=
  fold_left (fun cb f => apply_value f cb) fs cb.

End heap.

(** ** Runs of builder calls and of goroutines *)

Module runs.
Import oauth2 provider backend.

(** The calls on a [basicAuthCodeURLConfigBuilder], in the order made. *)
Variant acSetter : Type :=
  | AcRedirectURL (redirectURL : string)
  | AcScopes (scopes : list string).

Definition acApply (cb : basicAuthCodeURLConfigBuilder) (f : acSetter)
  : basicAuthCodeURLConfigBuilder :=
  match f with
  | AcRedirectURL u => acWithRedirectURL cb u
  | AcScopes l => acWithScopes cb l
  end.

Definition acChain (fs : list acSetter) (cb : basicAuthCodeURLConfigBuilder)
  : basicAuthCodeURLConfigBuilder :=
  fold_left acApply fs cb.

(** The last redirect URL and the last scopes among the calls, if any. *)
Fixpoint lastRedirectURL (fs : list acSetter) (d : string) : string :=
  match fs with
  | [] => d
  | AcRedirectURL u :: fs' => lastRedirectURL fs' u
  | AcScopes _ :: fs' => lastRedirectURL fs' d
  end.

Fixpoint lastScopes (fs : list acSetter) (d : list string) : list string :=
  match fs with
  | [] => d
  | AcRedirectURL _ :: fs' => lastScopes fs' d
  | AcScopes l :: fs' => lastScopes fs' l
  end.

(** A goroutine that has returned. *)
Definition finished (t : thread) : bool :=
  match t with
  | Active (Ret _) => true
  | _ => false
  end.

(** [steps_within n p]: whatever the commands answer, the handler [p]
    returns after at most [n] moves of its goroutine, a token call being
    two moves (the request and the answer). *)
Definition moves {X : Type} (c : cmd X) : nat :=
  if is_token_call c then 2%nat else 1%nat.

Fixpoint steps_within (n : nat) (p : prog reply) : Prop :=
  match p with
  | Ret _ => True
  | Do c k => (moves c <= n)%nat /\ forall x, steps_within (n - moves c) (k x)
  end.

(** The least number of moves that is known to be enough for a goroutine:
    the bound of its handler, one less when the request of a token call is
    out. *)
Definition thread_within (n : nat) (t : thread) : Prop :=
  match t with
  | Active p => steps_within n p
  | InFlight _ k => (1 <= n)%nat /\ forall r, steps_within (n - 1) (k r)
  end.

(** The moves a request is given: eight for a write, three for a delete. *)
Definition budget (op : Operation) : nat :=
  match op with
  | ReadOperation => 2%nat
  | UpdateOperation => 8%nat
  | DeleteOperation => 3%nat
  end.

(** A lower-case hexadecimal digit. *)
Definition lower_hex (a : ascii) : bool :=
  let n := Ascii.N_of_ascii a in
  ((48 <=? n) && (n <=? 57) || (97 <=? n) && (n <=? 102))%N.

(** The discipline of writes and deletes, and no call of the
    [getRefreshToken] helper. *)
Definition is_helper {X : Type} (c : cmd X) : bool :=
  match c with GetRefreshToken _ _ _ => true | _ => false end.

Definition no_helper (h : bool) (X : Type) (c : cmd X) : bool :=
  calls_unlocked h X c && negb (is_helper c).

End runs.

(** ** More sample data *)

Module samples_more.
Import oauth2 provider backend.

(** A discovery document that names both endpoints. *)
Definition discovered : Endpoint :=
  mkEndpoint "https://idp.test/auth" "https://idp.test/token" AuthStyleInParams.

Definition discovery (url : string) : Endpoint + string := inl discovered.

Definition by_discovery : gmap string string :=
  {[ "discovery_url" := "https://idp.test";
     "auth_code_url" := "https://ignored.test/auth";
     "auth_style" := "in_header" ]}.

Definition by_urls : gmap string string :=
  {[ "token_url" := "https://x/token" ]}.

Definition with_redirect : FieldData :=
  mkFieldData {[ "name" := "a"; "code" := "X"; "redirect_url" := "https://app/cb" ]} ∅.

Definition with_scopes : FieldData :=
  mkFieldData {[ "name" := "a" ]} {[ "scopes" := ["read"; "write"] ]}.

End samples_more.

(** * Properties of the provider factories *)

Module provider_spec.
Import oauth2 provider.

Lemma vsn_known_spec (v : Z) : vsn_known v = true <-> v = -1 \/ v = 1.
Proof. unfold vsn_known. rewrite orb_true_iff, !Z.eqb_eq. tauto. Qed.

Lemma vsn_unknown_spec (v : Z) : vsn_known v = false <-> v <> -1 /\ v <> 1.
Proof. unfold vsn_known. rewrite orb_false_iff, !Z.eqb_neq. tauto. Qed.

Lemma eqb_empty (s : string) : String.eqb s EmptyString = true <-> s = EmptyString.
Proof. apply String.eqb_eq. Qed.

Lemma eqb_nonempty (s : string) : String.eqb s EmptyString = false <-> s <> EmptyString.
Proof. apply String.eqb_neq. Qed.

(** C8: [NewTokenConfigBuilder] answers [ErrAuthRequired] exactly when the
    provider requires authorization, and otherwise, and only then, a
    client-credentials token builder (the client id and secret given, the
    token URL of the provider's endpoint) with no error. *)
Theorem NewTokenConfigBuilder_authorization (b : basic) (clientID clientSecret : string) :
  (NewTokenConfigBuilder b clientID clientSecret = Err ErrAuthRequired
   <-> IsAuthorizationRequired b = true)
  /\ (NewTokenConfigBuilder b clientID clientSecret
      = Ok (mkTokenConfigBuilder
              (mkClientCredentialsConfig clientID clientSecret (TokenURL (endpoint b)) [])
              None)
     <-> IsAuthorizationRequired b = false)
  /\ (forall e, NewTokenConfigBuilder b clientID clientSecret = Err e -> e = ErrAuthRequired)
  /\ (forall cb, NewTokenConfigBuilder b clientID clientSecret = Ok cb ->
        IsAuthorizationRequired b = false
        /\ tcToken (tbBuild cb)
           = ClientCredentialsToken None
               (mkClientCredentialsConfig clientID clientSecret (TokenURL (endpoint b)) [])).
Proof.
  unfold NewTokenConfigBuilder.
  destruct (IsAuthorizationRequired b) eqn:Hreq.
  - split; [tauto |]. split; [split; discriminate |].
    split; [intros e [= <-]; reflexivity | discriminate].
  - split; [split; discriminate |]. split; [tauto |].
    split; [discriminate |]. intros cb [= <-]. split; reflexivity.
Qed.

Lemma NewTokenConfigBuilder_authorization_witness :
  NewTokenConfigBuilder
    (mkBasic 1 (mkEndpoint "https://x/auth" "https://x/token" AuthStyleAutoDetect) true)
    "id" "secret" = Err ErrAuthRequired.
Proof.
  apply (proj1 (NewTokenConfigBuilder_authorization
                  (mkBasic 1 (mkEndpoint "https://x/auth" "https://x/token"
                                AuthStyleAutoDetect) true) "id" "secret")).
  reflexivity.
Defined.

Section FactoryFacts.

Variables bitbucketEndpoint githubEndpoint gitlabEndpoint
          googleEndpoint slackEndpoint : Endpoint.
Variable AzureADEndpoint : string -> Endpoint.
Variable oidcNewProvider : string -> Endpoint + string.

Lemma basicFactory_versioned (ep : Endpoint) :
  versioned (basicFactory ep) (fun opts => size opts = 0%nat).
Proof.
  intros v opts. unfold basicFactory.
  destruct (vsn_known v) eqn:Hv; simpl.
  - apply vsn_known_spec in Hv.
    split; [| split; [intros ? ?; lia |]].
    + intros _. destruct (Nat.eqb (size opts) 0) eqn:Hs; simpl.
      * apply Nat.eqb_eq in Hs. split; [split; eauto | split; [reflexivity | discriminate]].
      * apply Nat.eqb_neq in Hs.
        split; [split; [intros [p [=]] | intros; contradiction] |].
        split; [reflexivity | discriminate].
    + intros p. destruct (Nat.eqb (size opts) 0); simpl; intros [= <-]; reflexivity.
  - apply vsn_unknown_spec in Hv.
    split; [intros [-> | ->]; destruct Hv; congruence |].
    split; [reflexivity | discriminate].
Qed.

Lemma azureADFactory_versioned :
  versioned (azureADFactory AzureADEndpoint)
            (fun opts => opt opts "tenant" <> EmptyString).
Proof.
  intros v opts. unfold azureADFactory.
  destruct (vsn_known v) eqn:Hv; simpl.
  - apply vsn_known_spec in Hv.
    split; [| split; [intros ? ?; lia |]].
    + intros _. destruct (String.eqb (opt opts "tenant") EmptyString) eqn:Ht.
      * apply eqb_empty in Ht.
        split; [split; [intros [p [=]] | intros; contradiction] |].
        split; [reflexivity | discriminate].
      * apply eqb_nonempty in Ht.
        split; [split; eauto | split; [reflexivity | discriminate]].
    + intros p. destruct (String.eqb (opt opts "tenant") EmptyString);
        intros [= <-]; reflexivity.
  - apply vsn_unknown_spec in Hv.
    split; [intros [-> | ->]; destruct Hv; congruence |].
    split; [reflexivity | discriminate].
Qed.

Lemma customAuthStyle_ok (opts : gmap string string) :
  (exists st, customAuthStyle opts = Ok st)
  <-> (opt opts "auth_style" = "in_header" \/ opt opts "auth_style" = "in_params"
       \/ opt opts "auth_style" = EmptyString).
Proof.
  unfold customAuthStyle.
  destruct (String.eqb (opt opts "auth_style") "in_header") eqn:H1;
    [apply String.eqb_eq in H1; split; eauto |].
  destruct (String.eqb (opt opts "auth_style") "in_params") eqn:H2;
    [apply String.eqb_eq in H2; split; eauto |].
  destruct (String.eqb (opt opts "auth_style") EmptyString) eqn:H3;
    [apply String.eqb_eq in H3; split; eauto |].
  apply String.eqb_neq in H1, H2, H3.
  split; [intros [st [=]] | intros [? | [? | ?]]; contradiction].
Qed.

Lemma customAuthStyle_error (opts : gmap string string) (e : error) :
  customAuthStyle opts = Err e ->
  e <> ErrNoProviderWithVersion.
Proof.
  unfold customAuthStyle.
  repeat match goal with |- context [if ?b then _ else _] => destruct b end;
    intros [= <-]; discriminate.
Qed.

(** The checks of [customFactory] after the URLs are known. *)
Lemma customFactory_known (required : bool) (v : Z) (opts : gmap string string) :
  vsn_known v = true ->
  customFactory oidcNewProvider required v opts
  = match customURLs oidcNewProvider opts with
    | Err e => Err e
    | Ok (authURL, tokenURL) =>
        if required && String.eqb authURL EmptyString then
          Err (OptionError "auth_code_url" "authorization code URL is required")
        else if String.eqb tokenURL EmptyString then
          Err (OptionError "token_url" "token URL is required")
        else
          match customAuthStyle opts with
          | Err e => Err e
          | Ok authStyle =>
              Ok (mkBasic 1 (mkEndpoint authURL tokenURL authStyle) required)
          end
    end.
Proof. intros Hv. unfold customFactory. rewrite Hv. reflexivity. Qed.

Lemma customURLs_ok (opts : gmap string string) (authURL tokenURL : string) :
  customURLs oidcNewProvider opts = Ok (authURL, tokenURL)
  <-> (if String.eqb (opt opts "discovery_url") EmptyString
       then authURL = opt opts "auth_code_url" /\ tokenURL = opt opts "token_url"
       else exists ep, oidcNewProvider (opt opts "discovery_url") = inl ep
                       /\ authURL = AuthURL ep /\ tokenURL = TokenURL ep).
Proof.
  unfold customURLs.
  destruct (String.eqb (opt opts "discovery_url") EmptyString); simpl.
  - split; [intros [= <- <-]; auto | intros [-> ->]; reflexivity].
  - destruct (oidcNewProvider (opt opts "discovery_url")) as [ep | msg].
    + split; [intros [= <- <-]; eauto | intros (ep' & [= <-] & -> & ->); reflexivity].
    + split; [discriminate | intros (ep' & [=] & _)].
Qed.

Lemma customURLs_error (opts : gmap string string) (e : error) :
  customURLs oidcNewProvider opts = Err e -> e <> ErrNoProviderWithVersion.
Proof.
  unfold customURLs.
  destruct (negb (String.eqb (opt opts "discovery_url") EmptyString));
    [| discriminate].
  destruct (oidcNewProvider (opt opts "discovery_url")); [discriminate |].
  intros [= <-]. discriminate.
Qed.

Lemma customFactory_success (required : bool) (opts : gmap string string) :
  (exists p, customFactory oidcNewProvider required 1 opts = Ok p)
  <-> custom_options_ok oidcNewProvider required opts.
Proof.
  rewrite customFactory_known by reflexivity. unfold custom_options_ok.
  split.
  - intros [p Hp].
    destruct (customURLs oidcNewProvider opts) as [[authURL tokenURL] | e] eqn:Hu;
      [| discriminate].
    apply customURLs_ok in Hu.
    destruct (required && String.eqb authURL EmptyString) eqn:Ha; [discriminate |].
    destruct (String.eqb tokenURL EmptyString) eqn:Ht; [discriminate |].
    destruct (customAuthStyle opts) as [st | e] eqn:Hs; [| discriminate].
    split; [| apply customAuthStyle_ok; eauto].
    exists authURL, tokenURL. split; [exact Hu |].
    apply eqb_nonempty in Ht. split; [| exact Ht].
    intros ->. simpl in Ha. apply eqb_nonempty in Ha. exact Ha.
  - intros [(authURL & tokenURL & Hu & Ha & Ht) Hs].
    apply customURLs_ok in Hu. rewrite Hu.
    apply customAuthStyle_ok in Hs as [st Hs]. rewrite Hs.
    apply eqb_nonempty in Ht. rewrite Ht.
    destruct required; simpl.
    + specialize (Ha eq_refl). apply eqb_nonempty in Ha. rewrite Ha. eauto.
    + eauto.
Qed.

Lemma customFactory_versioned (required : bool) :
  versioned (customFactory oidcNewProvider required)
            (custom_options_ok oidcNewProvider required).
Proof.
  intros v opts.
  destruct (vsn_known v) eqn:Hv.
  - pose proof (customFactory_known required v opts Hv) as Hk.
    pose proof (customFactory_known required 1 opts eq_refl) as H1.
    apply vsn_known_spec in Hv.
    assert (Heq : customFactory oidcNewProvider required v opts
                  = customFactory oidcNewProvider required 1 opts) by congruence.
    split; [| split; [intros ? ?; lia |]].
    + intros _. split; [rewrite Heq; apply customFactory_success |].
      split; [exact Heq |].
      rewrite Hk.
      destruct (customURLs oidcNewProvider opts) as [[authURL tokenURL] | e] eqn:Hu.
      * destruct (required && String.eqb authURL EmptyString); [discriminate |].
        destruct (String.eqb tokenURL EmptyString); [discriminate |].
        destruct (customAuthStyle opts) as [st | e] eqn:Hs; [discriminate |].
        intros [= ->]. apply customAuthStyle_error in Hs. contradiction.
      * intros [= ->]. apply customURLs_error in Hu. contradiction.
    + intros p. rewrite Hk.
      destruct (customURLs oidcNewProvider opts) as [[authURL tokenURL] | e];
        [| discriminate].
      destruct (required && String.eqb authURL EmptyString); [discriminate |].
      destruct (String.eqb tokenURL EmptyString); [discriminate |].
      destruct (customAuthStyle opts); [| discriminate].
      intros [= <-]. reflexivity.
  - unfold customFactory. rewrite Hv. simpl.
    apply vsn_unknown_spec in Hv.
    split; [intros [-> | ->]; destruct Hv; congruence |].
    split; [reflexivity | discriminate].
Qed.

(** C6, as amended: every factory of the registry knows the versions -1
    and 1 and no other.  Under -1 or 1 it answers the same, never with
    [ErrNoProviderWithVersion], and it builds a provider exactly when the
    options pass its own validation ([options_ok]); under any other
    version it answers [ErrNoProviderWithVersion]; and a provider it
    builds has [Version() = 1], whichever of -1 and 1 was asked for. *)
Theorem registry_versions (name : string) (f : FactoryFunc) :
  In (name, f)
     (GlobalRegistry bitbucketEndpoint githubEndpoint gitlabEndpoint googleEndpoint
        slackEndpoint AzureADEndpoint oidcNewProvider) ->
  versioned f (options_ok oidcNewProvider name).
Proof.
  intros Hin. simpl in Hin.
  repeat (destruct Hin as [[= <- <-] | Hin];
          [first [ apply basicFactory_versioned
                 | apply azureADFactory_versioned
                 | apply customFactory_versioned ] |]).
  contradiction.
Qed.

(** C7, as amended: called with a version it knows (-1 or 1), a factory
    answers an empty required option with an [OptionError] that names
    the option and carries a message: [azureADFactory] with an empty
    [tenant] names [tenant]; without [discovery_url], the custom factory
    that requires authorization names [auth_code_url] when that option
    is empty (whatever [token_url] is), and either custom factory names
    [token_url] when that option is empty and the check of
    [auth_code_url] has passed. *)
Theorem required_options (v : Z) (opts : gmap string string) :
  v = -1 \/ v = 1 ->
  (opt opts "tenant" = EmptyString ->
     azureADFactory AzureADEndpoint v opts
     = Err (OptionError "tenant" "tenant is required"))
  /\ (opt opts "discovery_url" = EmptyString ->
      opt opts "auth_code_url" = EmptyString ->
      customFactory oidcNewProvider true v opts
      = Err (OptionError "auth_code_url" "authorization code URL is required"))
  /\ (opt opts "discovery_url" = EmptyString ->
      opt opts "token_url" = EmptyString ->
      forall required : bool,
        (required = true -> opt opts "auth_code_url" <> EmptyString) ->
        customFactory oidcNewProvider required v opts
        = Err (OptionError "token_url" "token URL is required")).
Proof.
  intros Hv. apply vsn_known_spec in Hv.
  split; [| split].
  - intros Ht. unfold azureADFactory. rewrite Hv, Ht. reflexivity.
  - intros Hd Ha. rewrite customFactory_known by exact Hv.
    unfold customURLs. rewrite Hd, Ha. reflexivity.
  - intros Hd Ht required Ha. rewrite customFactory_known by exact Hv.
    unfold customURLs. rewrite Hd, Ht. simpl.
    destruct required; simpl; [| reflexivity].
    specialize (Ha eq_refl). apply eqb_nonempty in Ha. rewrite Ha. reflexivity.
Qed.

End FactoryFacts.

Lemma registry_versions_witness :
  exists p, azureADFactory samples.azure (-1) {[ "tenant" := "contoso" ]} = Ok p
            /\ Version p = 1.
Proof.
  destruct (registry_versions samples.ep samples.ep samples.ep samples.ep samples.ep
              samples.azure samples.no_discovery
              "microsoft_azure_ad" (azureADFactory samples.azure)
              ltac:(simpl; tauto) (-1) {[ "tenant" := "contoso" ]})
    as (Hknown & _ & Hversion).
  destruct (Hknown ltac:(left; reflexivity)) as (Hok & _ & _).
  destruct (proj2 Hok ltac:(vm_compute; discriminate)) as [p Hp].
  exists p. split; [exact Hp | exact (Hversion p Hp)].
Defined.

(** C6, as stated, fails: with version -1 or 1 a factory of the registry
    still refuses options it does not accept. *)
Lemma latest_version_can_fail :
  azureADFactory samples.azure (-1) ∅
  = Err (OptionError "tenant" "tenant is required")
  /\ basicFactory samples.ep 1 {[ "tenant" := "contoso" ]} = Err ErrNoOptions
  /\ In ("microsoft_azure_ad", azureADFactory samples.azure)
        (GlobalRegistry samples.ep samples.ep samples.ep samples.ep samples.ep
           samples.azure samples.no_discovery)
  /\ In ("github", basicFactory samples.ep)
        (GlobalRegistry samples.ep samples.ep samples.ep samples.ep samples.ep
           samples.azure samples.no_discovery).
Proof.
  split; [vm_compute; reflexivity |].
  split; [vm_compute; reflexivity |].
  split; simpl; tauto.
Qed.

Lemma required_options_witness :
  azureADFactory samples.azure 1 {[ "auth_style" := "in_header" ]}
  = Err (OptionError "tenant" "tenant is required")
  /\ customFactory samples.no_discovery true 1 {[ "token_url" := "https://x/token" ]}
     = Err (OptionError "auth_code_url" "authorization code URL is required")
  /\ customFactory samples.no_discovery false 1 {[ "auth_style" := "in_header" ]}
     = Err (OptionError "token_url" "token URL is required").
Proof.
  split; [| split].
  - apply (proj1 (required_options samples.azure samples.no_discovery 1
                    {[ "auth_style" := "in_header" ]} ltac:(right; reflexivity))).
    vm_compute; reflexivity.
  - apply (proj1 (proj2 (required_options samples.azure samples.no_discovery 1
                           {[ "token_url" := "https://x/token" ]}
                           ltac:(right; reflexivity))));
      vm_compute; reflexivity.
  - apply (proj2 (proj2 (required_options samples.azure samples.no_discovery 1
                           {[ "auth_style" := "in_header" ]}
                           ltac:(right; reflexivity))));
      [vm_compute; reflexivity | vm_compute; reflexivity | discriminate].
Defined.

(** C7, as stated, fails: the custom factory that requires authorization,
    without [discovery_url] and with an empty [token_url], names
    [auth_code_url] when that option is empty too; and under a version it
    does not know a factory answers [ErrNoProviderWithVersion] before it
    looks at any option. *)
Lemma empty_token_url_not_named :
  opt (∅ : gmap string string) "discovery_url" = EmptyString
  /\ opt (∅ : gmap string string) "token_url" = EmptyString
  /\ customFactory samples.no_discovery true 1 ∅
     = Err (OptionError "auth_code_url" "authorization code URL is required")
  /\ customFactory samples.no_discovery true 1 ∅
     <> Err (OptionError "token_url" "token URL is required")
  /\ azureADFactory samples.azure 2 ∅ = Err ErrNoProviderWithVersion.
Proof.
  repeat split; try (vm_compute; reflexivity).
  vm_compute. discriminate.
Qed.

(** The factories of the named services and of Azure AD leave
    [isAuthorizationRequired] at its zero value: the providers they build
    do not require authorization. *)
Lemma named_providers_not_required (ep : Endpoint) (az : string -> Endpoint)
    (v : Z) (opts : gmap string string) (p : basic) :
  basicFactory ep v opts = Ok p \/ azureADFactory az v opts = Ok p ->
  IsAuthorizationRequired p = false.
Proof.
  unfold basicFactory, azureADFactory.
  intros [H | H];
    repeat match type of H with
           | context [if ?b then _ else _] => destruct b
           end;
    try discriminate; injection H as <-; reflexivity.
Qed.

End provider_spec.

(** * Properties of the credential endpoint *)

Module backend_spec.
Import oauth2 provider backend.

(** ** The storage key *)

(** The embedding of [sha1.Sum] on the test vectors of FIPS 180 and
    RFC 3174. *)
Example sha1_abc :
  hex (sha1.Sum (bytes_of_string "abc")) = "a9993e364706816aba3e25717850c26c9cd0d89d".
Proof. vm_compute. reflexivity. Qed.

Example sha1_empty :
  hex (sha1.Sum (bytes_of_string EmptyString))
  = "da39a3ee5e6b4b0d3255bfef95601890afd80709".
Proof. vm_compute. reflexivity. Qed.

Example sha1_two_blocks :
  hex (sha1.Sum
         (bytes_of_string "abcdbcdecdefdefgefghfghighijhijkijkljklmklmnlmnomnopnopq"))
  = "84983e441c3bd26ebaae4aa1f95129e5e54670f1".
Proof. vm_compute. reflexivity. Qed.

Example credKey_abc :
  credKey "abc" = "creds/a999/3e36/4706816aba3e25717850c26c9cd0d89d".
Proof. vm_compute. reflexivity. Qed.

Lemma Sum_length (data : list ascii) : length (sha1.Sum data) = 20%nat.
Proof.
  unfold sha1.Sum, sha1.digest_of.
  destruct (fold_left _ _ _) as [[[[h0 h1] h2] h3] h4].
  reflexivity.
Qed.

Lemma hex_digit_inj (n m : N) :
  (n < 16)%N -> (m < 16)%N -> hex_digit n = hex_digit m -> n = m.
Proof.
  intros Hn Hm H. apply (f_equal Ascii.N_of_ascii) in H. unfold hex_digit in H.
  destruct (n <? 10)%N eqn:En; destruct (m <? 10)%N eqn:Em;
    rewrite ?N.ltb_lt, ?N.ltb_ge in *;
    rewrite !Ascii.N_ascii_embedding in H by lia; lia.
Qed.

Lemma byte_of_digits (a b : ascii) :
  hex_digit (Ascii.N_of_ascii a / 16) = hex_digit (Ascii.N_of_ascii b / 16) ->
  hex_digit (Ascii.N_of_ascii a mod 16) = hex_digit (Ascii.N_of_ascii b mod 16) ->
  a = b.
Proof.
  intros Hhi Hlo.
  pose proof (Ascii.N_ascii_bounded a) as Ha.
  pose proof (Ascii.N_ascii_bounded b) as Hb.
  apply hex_digit_inj in Hhi;
    [| apply N.Div0.div_lt_upper_bound; lia | apply N.Div0.div_lt_upper_bound; lia].
  apply hex_digit_inj in Hlo; [| apply N.mod_lt; lia | apply N.mod_lt; lia].
  rewrite <- (Ascii.ascii_N_embedding a), <- (Ascii.ascii_N_embedding b).
  f_equal.
  rewrite (N.div_mod (Ascii.N_of_ascii a) 16), (N.div_mod (Ascii.N_of_ascii b) 16) by lia.
  congruence.
Qed.

Lemma hex_inj (l1 l2 : list ascii) : hex l1 = hex l2 -> l1 = l2.
Proof.
  revert l2. induction l1 as [| a l1 IH]; intros [| b l2]; simpl;
    try reflexivity; try discriminate.
  intros [= H1 H2 H3].
  f_equal; [apply byte_of_digits; assumption | apply IH; exact H3].
Qed.

Lemma hex_length (l : list ascii) : String.length (hex l) = (2 * length l)%nat.
Proof. induction l as [| a l IH]; simpl; [reflexivity | rewrite IH; lia]. Qed.

Lemma append_cons (a : ascii) (s t : string) : String a s +:+ t = String a (s +:+ t).
Proof. reflexivity. Qed.

Lemma append_inj (s1 s2 t1 t2 : string) :
  String.length s1 = String.length s2 ->
  s1 +:+ t1 = s2 +:+ t2 -> s1 = s2 /\ t1 = t2.
Proof.
  revert s2. induction s1 as [| a s1 IH]; intros [| b s2]; simpl;
    try discriminate; [intros _ H; split; [reflexivity | exact H] |].
  intros [= Hlen]. rewrite !append_cons. intros [= -> H].
  destruct (IH _ Hlen H) as [-> ->]. auto.
Qed.

Lemma append_length (s t : string) :
  String.length (s +:+ t) = (String.length s + String.length t)%nat.
Proof.
  induction s as [| a s IH]; [reflexivity |].
  rewrite append_cons. simpl. rewrite IH. reflexivity.
Qed.

Lemma split_hash (h : list ascii) :
  h = (take 2 h ++ take 2 (drop 2 h) ++ drop 4 h)%list.
Proof.
  rewrite <- (take_drop 2 h) at 1. f_equal.
  rewrite <- (take_drop 2 (drop 2 h)) at 1. f_equal.
  rewrite drop_drop. reflexivity.
Qed.

Lemma credKey_inj (n1 n2 : string) :
  credKey n1 = credKey n2 ->
  sha1.Sum (bytes_of_string n1) = sha1.Sum (bytes_of_string n2).
Proof.
  unfold credKey.
  pose proof (Sum_length (bytes_of_string n1)) as L1.
  pose proof (Sum_length (bytes_of_string n2)) as L2.
  set (h1 := sha1.Sum (bytes_of_string n1)) in *.
  set (h2 := sha1.Sum (bytes_of_string n2)) in *.
  intros H.
  apply append_inj in H as [_ H]; [| reflexivity].
  apply append_inj in H as [Hfirst H];
    [| rewrite !hex_length, !length_take; lia].
  apply append_inj in H as [_ H]; [| reflexivity].
  apply append_inj in H as [Hsecond H];
    [| rewrite !hex_length, !length_take, !length_drop; lia].
  apply append_inj in H as [_ Hrest]; [| reflexivity].
  apply hex_inj in Hfirst, Hsecond, Hrest.
  rewrite (split_hash h1), (split_hash h2). congruence.
Qed.

(** C5: [credKey] is a function of the SHA-1 digest of the name alone: the
    digest's first two bytes, next two bytes and remaining sixteen bytes,
    each in lower-case hexadecimal, joined with [/] under [creds/].  The
    same name gives the same key, and two names have the same key exactly
    when their digests are equal. *)
Theorem credKey_hashed_path (n1 n2 : string) :
  (exists first second rest : list ascii,
      sha1.Sum (bytes_of_string n1) = (first ++ second ++ rest)%list
      /\ length first = 2%nat /\ length second = 2%nat /\ length rest = 16%nat
      /\ credKey n1
         = "creds/" +:+ hex first +:+ "/" +:+ hex second +:+ "/" +:+ hex rest
      /\ String.length (credKey n1) = 48%nat)
  /\ (n1 = n2 -> credKey n1 = credKey n2)
  /\ (credKey n1 = credKey n2
      <-> sha1.Sum (bytes_of_string n1) = sha1.Sum (bytes_of_string n2)).
Proof.
  split; [| split].
  - pose proof (Sum_length (bytes_of_string n1)) as L.
    exists (take 2 (sha1.Sum (bytes_of_string n1))),
           (take 2 (drop 2 (sha1.Sum (bytes_of_string n1)))),
           (drop 4 (sha1.Sum (bytes_of_string n1))).
    split; [apply split_hash |].
    rewrite !length_take, !length_drop, L.
    repeat (split; [reflexivity |]).
    unfold credKey. fold (hex (take 2 (sha1.Sum (bytes_of_string n1)))).
    change credsPathPrefix with "creds/".
    rewrite !append_length, !hex_length, !length_take, !length_drop, L.
    reflexivity.
  - intros ->. reflexivity.
  - split; [apply credKey_inj |].
    intros H. unfold credKey. rewrite H. reflexivity.
Qed.

Lemma credKey_hashed_path_witness :
  sha1.Sum (bytes_of_string "my-user-tokens") = sha1.Sum (bytes_of_string "my-user-tokens").
Proof.
  apply (proj1 (proj2 (proj2 (credKey_hashed_path "my-user-tokens" "my-user-tokens")))).
  reflexivity.
Defined.

(** ** One handler on its own *)

Ltac run_step :=
  repeat (progress (unfold mbind, prog_bind, mret, prog_ret, call, locked, storeToken,
                    handle; simpl)).

(** Case analysis on whatever the next step of a run depends on. *)
Ltac run_case :=
  match goal with
  | |- context [run _ (match ?x with _ => _ end) _] => destruct x eqn:?
  | |- context [run _ (if ?x then _ else _) _] => destruct x eqn:?
  | |- context [match w_put ?w ?e with _ => _ end] => destruct (w_put w e) eqn:?
  | |- context [match w_delete ?w ?k with _ => _ end] => destruct (w_delete w k) eqn:?
  | |- context [match w_json ?w ?t with _ => _ end] => destruct (w_json w t) eqn:?
  end; run_step.

Lemma in_singleton_pair (call call' : TokenCall) (r r' : result Token) :
  (call, r) ∈ [(call', r')] -> call = call' /\ r = r'.
Proof. intros H. apply list_elem_of_singleton in H. inversion H. auto. Qed.

(** C3: a write with a code that the provider rejects (the exchange of
    the code, with the redirect URL if one is given, is answered with an
    [oauth2.RetrieveError]) returns the error response [invalid code]
    with no Go error, and a write with a refresh token that the provider
    rejects returns [invalid refresh_token]; in both the rejected call is
    the only token call, nothing is written and the storage is as it was.
    The handler returns on every input, and on every input a rejected
    token call in its trace means one of these two replies with the
    storage unchanged, while any other error of the token call is returned
    as the Go error, also with the storage unchanged. *)
Theorem rejected_by_provider (w : world) (data : FieldData) (st : store) :
  held st = false ->
  (forall c p,
      w_getConfig w (entries st) = Ok (Some c) ->
      w_provider w c = Ok p ->
      IsAuthorizationRequired p = true ->
      (forall code body,
          GetOk data "code" = Some code ->
          GetOk data "refresh_token" = None ->
          w_token w (ConfigExchange None
                       (mkOAuth2Config (cClientID c) (cClientSecret c) (endpoint p)
                          (default EmptyString (GetOk data "redirect_url")) [])
                       code)
          = Err (RetrieveError body) ->
          exists tr,
            run w (credsUpdateOperation data) st
            = Some ((Some (ErrorResponse "invalid code"), None), st, tr)
            /\ token_answers tr
               = [(ConfigExchange None
                     (mkOAuth2Config (cClientID c) (cClientSecret c) (endpoint p)
                        (default EmptyString (GetOk data "redirect_url")) [])
                     code,
                   Err (RetrieveError body))]
            /\ storage_writes tr = [])
      /\ (forall refreshToken body,
            GetOk data "code" = None ->
            GetOk data "refresh_token" = Some refreshToken ->
            w_token w (SourceToken
                         (ConfigTokenSource None
                            (mkOAuth2Config (cClientID c) (cClientSecret c)
                               (endpoint p) EmptyString [])
                            (mkToken EmptyString EmptyString refreshToken 0)))
            = Err (RetrieveError body) ->
            exists tr,
              run w (credsUpdateOperation data) st
              = Some ((Some (ErrorResponse "invalid refresh_token"), None), st, tr)
              /\ token_answers tr
                 = [(SourceToken
                       (ConfigTokenSource None
                          (mkOAuth2Config (cClientID c) (cClientSecret c)
                             (endpoint p) EmptyString [])
                          (mkToken EmptyString EmptyString refreshToken 0)),
                     Err (RetrieveError body))]
              /\ storage_writes tr = []))
  /\ exists r st' tr,
      run w (credsUpdateOperation data) st = Some (r, st', tr)
      /\ (forall call body,
            (call, Err (RetrieveError body)) ∈ token_answers tr ->
            st' = st /\ storage_writes tr = []
            /\ ((exists code, GetOk data "code" = Some code
                              /\ r = (Some (ErrorResponse "invalid code"), None))
                \/ (GetOk data "code" = None
                    /\ r = (Some (ErrorResponse "invalid refresh_token"), None))))
      /\ (forall call e,
            (call, Err e) ∈ token_answers tr ->
            (forall body, e <> RetrieveError body) ->
            st' = st /\ storage_writes tr = [] /\ r = (None, Some e)).
Proof.
  destruct st as [s h]. simpl. intros ->. split.
  - intros c p Hc Hp Hreq. split.
    + intros code body Hcode Hrt Htok.
      unfold credsUpdateOperation. generalize (credKey (Get data "name")). intros key.
      run_step. rewrite Hc. run_step. rewrite Hp. run_step.
      rewrite Hreq, Hcode, Hrt. run_step.
      destruct (GetOk data "redirect_url") as [u |]; simpl in Htok; run_step;
        unfold Exchange, ebBuild, ebWithRedirectURL, NewExchangeConfigBuilder,
          set_RedirectURL; simpl;
        rewrite Htok; run_step;
        (eexists; split; [reflexivity |]; split; reflexivity).
    + intros refreshToken body Hcode Hrt Htok.
      unfold credsUpdateOperation. generalize (credKey (Get data "name")). intros key.
      run_step. rewrite Hc. run_step. rewrite Hp. run_step.
      rewrite Hreq, Hcode, Hrt. run_step.
      unfold ecTokenSource, ebBuild, NewExchangeConfigBuilder; simpl.
      rewrite Htok. run_step.
      eexists. split; [reflexivity |]. split; reflexivity.
  - unfold credsUpdateOperation. run_step.
    repeat run_case.
    all: eexists _, _, _; (split; [reflexivity |]).
    all: split; intros tcall tbody Hin; simpl in Hin.
    all: try (apply elem_of_nil in Hin; contradiction).
    all: try (apply in_singleton_pair in Hin as [-> [=]]; subst;
              split; [reflexivity |]; split; [reflexivity |]; eauto; fail).
    all: apply in_singleton_pair in Hin as [-> [=]]; subst.
    all: intros Hother; try (exfalso; eapply Hother; reflexivity).
    all: split; [reflexivity |]; split; reflexivity.
Qed.

Lemma rejected_by_provider_witness :
  (exists tr,
      run samples.rejecting (credsUpdateOperation samples.with_code) samples.empty_store
      = Some ((Some (ErrorResponse "invalid code"), None), samples.empty_store, tr)
      /\ storage_writes tr = [])
  /\ (exists tr,
        run samples.rejecting (credsUpdateOperation samples.with_refresh_token)
          samples.empty_store
        = Some ((Some (ErrorResponse "invalid refresh_token"), None),
                samples.empty_store, tr)
        /\ storage_writes tr = []).
Proof.
  assert (Hc1 : GetOk samples.with_code "code" = Some "X")
    by (vm_compute; reflexivity).
  assert (Hr1 : GetOk samples.with_code "refresh_token" = None)
    by (vm_compute; reflexivity).
  assert (Hc2 : GetOk samples.with_refresh_token "code" = None)
    by (vm_compute; reflexivity).
  assert (Hr2 : GetOk samples.with_refresh_token "refresh_token" = Some "R")
    by (vm_compute; reflexivity).
  split.
  - destruct (proj1 (proj1 (rejected_by_provider samples.rejecting samples.with_code
                               samples.empty_store eq_refl)
                       samples.cfg samples.three_legged eq_refl eq_refl eq_refl)
                "X" "invalid_grant" Hc1 Hr1 eq_refl)
      as (tr & Hrun & _ & Hwrites).
    exists tr. split; [exact Hrun | exact Hwrites].
  - destruct (proj2 (proj1 (rejected_by_provider samples.rejecting
                               samples.with_refresh_token samples.empty_store eq_refl)
                       samples.cfg samples.three_legged eq_refl eq_refl eq_refl)
                "R" "invalid_grant" Hc2 Hr2 eq_refl)
      as (tr & Hrun & _ & Hwrites).
    exists tr. split; [exact Hrun | exact Hwrites].
Defined.

Lemma delete_runs (w : world) (data : FieldData) (s : gmap string string) :
  run w (credsDeleteOperation data) (mkStore s false)
  = Some ((None, w_delete w (credKey (Get data "name"))),
          mkStore (match w_delete w (credKey (Get data "name")) with
                   | Some _ => s
                   | None => delete (credKey (Get data "name")) s
                   end) false,
          [Ev MutLock tt;
           Ev (StorageDelete (credKey (Get data "name")))
              (w_delete w (credKey (Get data "name")));
           Ev MutUnlock tt]).
Proof.
  unfold credsDeleteOperation. run_step.
  destruct (w_delete w (credKey (Get data "name"))); reflexivity.
Qed.

(** C10: when the configured provider does not require authorization, a
    write returns the error response that the provider does not support
    creating credentials, with no Go error, right after the configuration
    and the provider are read: no token call is made and the storage is
    the same.  A delete adds no entry either, so that for such a provider
    an entry can only come from the read path. *)
Theorem write_not_supported (w : world) (data : FieldData) (st : store)
    (c : config) (p : basic) :
  w_getConfig w (entries st) = Ok (Some c) ->
  w_provider w c = Ok p ->
  IsAuthorizationRequired p = false ->
  (exists tr,
      run w (credsUpdateOperation data) st
      = Some ((Some (ErrorResponse notSupported), None), st, tr)
      /\ tr = [Ev GetConfig (Ok (Some c)); Ev (ConfigProvider c) (Ok p)]
      /\ token_answers tr = [] /\ storage_writes tr = [])
  /\ (forall data' r st' tr,
        run w (credsDeleteOperation data') (mkStore (entries st) false)
        = Some (r, st', tr) ->
        entries st' ⊆ entries st).
Proof.
  intros Hc Hp Hreq. split.
  - eexists. split; [| repeat split].
    unfold credsUpdateOperation. run_step.
    rewrite Hc. run_step. rewrite Hp. run_step. rewrite Hreq. simpl.
    destruct st; reflexivity.
  - intros data' r st' tr. rewrite delete_runs. intros [= _ <- _]. simpl.
    destruct (w_delete w (credKey (Get data' "name"))); [reflexivity |].
    apply delete_subseteq.
Qed.

Lemma write_not_supported_witness :
  run (samples.world_of (Ok (Some samples.cfg)) (Ok samples.two_legged)
         (Ok samples.fresh) (None, None) 0)
      (credsUpdateOperation samples.with_code) samples.empty_store
  = Some ((Some (ErrorResponse notSupported), None), samples.empty_store,
          [Ev GetConfig (Ok (Some samples.cfg));
           Ev (ConfigProvider samples.cfg) (Ok samples.two_legged)]).
Proof.
  destruct (write_not_supported
              (samples.world_of (Ok (Some samples.cfg)) (Ok samples.two_legged)
                 (Ok samples.fresh) (None, None) 0)
              samples.with_code samples.empty_store samples.cfg samples.two_legged
              eq_refl eq_refl eq_refl)
    as [(tr & Hrun & -> & _) _].
  exact Hrun.
Defined.

(** C9: [credsDeleteOperation] takes the mutex and deletes the hashed key
    without looking whether it is there: its only error is the one the
    storage backend reports for the delete, whatever the storage holds.
    With a backend that performs the delete, deleting succeeds whether or
    not the credential exists (a storage without the credential is left as
    it was), and deleting the same name again succeeds too and changes
    nothing. *)
Theorem delete_idempotent (w : world) (data : FieldData) (s : gmap string string) :
  run w (credsDeleteOperation data) (mkStore s false)
  = Some ((None, w_delete w (credKey (Get data "name"))),
          mkStore (match w_delete w (credKey (Get data "name")) with
                   | Some _ => s
                   | None => delete (credKey (Get data "name")) s
                   end) false,
          [Ev MutLock tt;
           Ev (StorageDelete (credKey (Get data "name")))
              (w_delete w (credKey (Get data "name")));
           Ev MutUnlock tt])
  /\ (w_delete w (credKey (Get data "name")) = None ->
      run w (credsDeleteOperation data) (mkStore s false)
      = Some ((None, None), mkStore (delete (credKey (Get data "name")) s) false,
              [Ev MutLock tt; Ev (StorageDelete (credKey (Get data "name"))) None;
               Ev MutUnlock tt])
      /\ run w (credsDeleteOperation data)
             (mkStore (delete (credKey (Get data "name")) s) false)
         = Some ((None, None), mkStore (delete (credKey (Get data "name")) s) false,
                 [Ev MutLock tt; Ev (StorageDelete (credKey (Get data "name"))) None;
                  Ev MutUnlock tt])
      /\ (s !! credKey (Get data "name") = None ->
          delete (credKey (Get data "name")) s = s)).
Proof.
  split; [apply delete_runs |].
  intros Hd. rewrite !delete_runs, Hd, delete_delete_eq.
  split; [reflexivity |]. split; [reflexivity |]. apply delete_id.
Qed.

Lemma delete_idempotent_witness :
  run (samples.world_of (Ok None) (Ok samples.two_legged) (Ok samples.fresh)
         (None, None) 0)
      (credsDeleteOperation samples.name_only) (mkStore ∅ false)
  = Some ((None, None), mkStore (delete (credKey "a") ∅) false,
          [Ev MutLock tt; Ev (StorageDelete (credKey "a")) None; Ev MutUnlock tt]).
Proof.
  exact (proj1 (proj2 (delete_idempotent
                         (samples.world_of (Ok None) (Ok samples.two_legged)
                            (Ok samples.fresh) (None, None) 0)
                         samples.name_only ∅) eq_refl)).
Defined.

(** What a write answers before it looks at [code] and [refresh_token]:
    the error of the configuration read, [not configured], the error of the
    provider resolution, or that the provider does not support writes. *)
Lemma write_gates (w : world) (data : FieldData) (st : store) (msg : string) :
  (forall c p, w_getConfig w (entries st) = Ok (Some c) -> w_provider w c = Ok p ->
               IsAuthorizationRequired p = true ->
               run w (credsUpdateOperation data) st
               = Some ((Some (ErrorResponse msg), None), st,
                       [Ev GetConfig (Ok (Some c)); Ev (ConfigProvider c) (Ok p)])) ->
  exists r tr,
    run w (credsUpdateOperation data) st = Some (r, st, tr)
    /\ token_answers tr = [] /\ storage_writes tr = []
    /\ ((exists e, w_getConfig w (entries st) = Err e /\ r = (None, Some e))
        \/ (w_getConfig w (entries st) = Ok None
            /\ r = (Some (ErrorResponse "not configured"), None))
        \/ (exists c e, w_getConfig w (entries st) = Ok (Some c)
                        /\ w_provider w c = Err e /\ r = (None, Some e))
        \/ (exists c p, w_getConfig w (entries st) = Ok (Some c)
                        /\ w_provider w c = Ok p
                        /\ IsAuthorizationRequired p = false
                        /\ r = (Some (ErrorResponse notSupported), None))
        \/ (exists c p, w_getConfig w (entries st) = Ok (Some c)
                        /\ w_provider w c = Ok p
                        /\ IsAuthorizationRequired p = true
                        /\ r = (Some (ErrorResponse msg), None))).
Proof.
  intros Hreached.
  destruct (w_getConfig w (entries st)) as [[c |] | e] eqn:Hc.
  - destruct (w_provider w c) as [p | e] eqn:Hp.
    + destruct (IsAuthorizationRequired p) eqn:Hreq.
      * rewrite (Hreached c p eq_refl Hp Hreq).
        eexists _, _. split; [reflexivity |]. split; [reflexivity |].
        split; [reflexivity |]. do 4 right. eauto 10.
      * unfold credsUpdateOperation. run_step. rewrite Hc. run_step.
        rewrite Hp. run_step. rewrite Hreq. simpl. destruct st.
        eexists _, _. split; [reflexivity |]. split; [reflexivity |].
        split; [reflexivity |]. do 3 right. left. eauto 10.
    + unfold credsUpdateOperation. run_step. rewrite Hc. run_step.
      rewrite Hp. run_step. destruct st.
      eexists _, _. split; [reflexivity |]. split; [reflexivity |].
      split; [reflexivity |]. do 2 right. left. eauto 10.
  - unfold credsUpdateOperation. run_step. rewrite Hc. run_step. destruct st.
    eexists _, _. split; [reflexivity |]. split; [reflexivity |].
    split; [reflexivity |]. right. left. eauto.
  - unfold credsUpdateOperation. run_step. rewrite Hc. run_step. destruct st.
    eexists _, _. split; [reflexivity |]. split; [reflexivity |].
    split; [reflexivity |]. left. eauto.
Qed.

(** C4, as amended: a write that gives both a code and a refresh token, or
    neither, makes no token call and leaves the storage as it was.  When
    the backend is configured and its provider requires authorization, the
    reply is the error response [cannot use both code and refresh_token],
    respectively [missing code or refresh_token], with no Go error; before
    that, the write answers with the error of the configuration read, with
    [not configured], with the error of the provider resolution, or that
    the provider does not support creating credentials. *)
Theorem both_or_neither (w : world) (data : FieldData) (st : store) :
  (is_Some (GetOk data "code") -> is_Some (GetOk data "refresh_token") ->
   exists r tr,
     run w (credsUpdateOperation data) st = Some (r, st, tr)
     /\ token_answers tr = [] /\ storage_writes tr = []
     /\ ((exists e, w_getConfig w (entries st) = Err e /\ r = (None, Some e))
         \/ (w_getConfig w (entries st) = Ok None
             /\ r = (Some (ErrorResponse "not configured"), None))
         \/ (exists c e, w_getConfig w (entries st) = Ok (Some c)
                         /\ w_provider w c = Err e /\ r = (None, Some e))
         \/ (exists c p, w_getConfig w (entries st) = Ok (Some c)
                         /\ w_provider w c = Ok p
                         /\ IsAuthorizationRequired p = false
                         /\ r = (Some (ErrorResponse notSupported), None))
         \/ (exists c p, w_getConfig w (entries st) = Ok (Some c)
                         /\ w_provider w c = Ok p
                         /\ IsAuthorizationRequired p = true
                         /\ r = (Some (ErrorResponse
                                         "cannot use both code and refresh_token"),
                                 None))))
  /\ (GetOk data "code" = None -> GetOk data "refresh_token" = None ->
      exists r tr,
        run w (credsUpdateOperation data) st = Some (r, st, tr)
        /\ token_answers tr = [] /\ storage_writes tr = []
        /\ ((exists e, w_getConfig w (entries st) = Err e /\ r = (None, Some e))
            \/ (w_getConfig w (entries st) = Ok None
                /\ r = (Some (ErrorResponse "not configured"), None))
            \/ (exists c e, w_getConfig w (entries st) = Ok (Some c)
                            /\ w_provider w c = Err e /\ r = (None, Some e))
            \/ (exists c p, w_getConfig w (entries st) = Ok (Some c)
                            /\ w_provider w c = Ok p
                            /\ IsAuthorizationRequired p = false
                            /\ r = (Some (ErrorResponse notSupported), None))
            \/ (exists c p, w_getConfig w (entries st) = Ok (Some c)
                            /\ w_provider w c = Ok p
                            /\ IsAuthorizationRequired p = true
                            /\ r = (Some (ErrorResponse "missing code or refresh_token"),
                                    None)))).
Proof.
  split.
  - intros [code Hcode] [rt Hrt]. apply write_gates.
    intros c p Hc Hp Hreq. unfold credsUpdateOperation. run_step.
    rewrite Hc. run_step. rewrite Hp. run_step. rewrite Hreq, Hcode, Hrt. simpl.
    destruct st; reflexivity.
  - intros Hcode Hrt. apply write_gates.
    intros c p Hc Hp Hreq. unfold credsUpdateOperation. run_step.
    rewrite Hc. run_step. rewrite Hp. run_step. rewrite Hreq, Hcode, Hrt. simpl.
    destruct st; reflexivity.
Qed.

Lemma both_or_neither_witness :
  exists tr,
    run (samples.world_of (Ok (Some samples.cfg)) (Ok samples.three_legged)
           (Ok samples.fresh) (None, None) 0)
        (credsUpdateOperation samples.with_both) samples.empty_store
    = Some ((Some (ErrorResponse "cannot use both code and refresh_token"), None),
            samples.empty_store, tr)
    /\ token_answers tr = [] /\ storage_writes tr = [].
Proof.
  destruct (proj1 (both_or_neither
                     (samples.world_of (Ok (Some samples.cfg)) (Ok samples.three_legged)
                        (Ok samples.fresh) (None, None) 0)
                     samples.with_both samples.empty_store)
              ltac:(vm_compute; eauto) ltac:(vm_compute; eauto))
    as (r & tr & Hrun & Hcalls & Hwrites & Hr).
  exists tr. split; [| split; assumption].
  rewrite Hrun. f_equal. f_equal. f_equal.
  destruct Hr as [(e & [=] & _) | [([=] & _) | [(c & e & _ & [=] & _)
                 | [(c & p & _ & [= <-] & [=] & _) | (c & p & _ & _ & _ & ->)]]]].
  reflexivity.
Defined.

(** C4, as stated, fails: a write with both a code and a refresh token is
    answered with [not configured] when there is no configuration, and
    with the refusal of writes when the provider does not require
    authorization. *)
Lemma both_given_other_reply :
  GetOk samples.with_both "code" = Some "X"
  /\ GetOk samples.with_both "refresh_token" = Some "R"
  /\ run (samples.world_of (Ok None) (Ok samples.three_legged) (Ok samples.fresh)
            (None, None) 0)
         (credsUpdateOperation samples.with_both) samples.empty_store
     = Some ((Some (ErrorResponse "not configured"), None), samples.empty_store,
             [Ev GetConfig (Ok None)])
  /\ run (samples.world_of (Ok (Some samples.cfg)) (Ok samples.two_legged)
            (Ok samples.fresh) (None, None) 0)
         (credsUpdateOperation samples.with_both) samples.empty_store
     = Some ((Some (ErrorResponse notSupported), None), samples.empty_store,
             [Ev GetConfig (Ok (Some samples.cfg));
              Ev (ConfigProvider samples.cfg) (Ok samples.two_legged)])
  /\ ErrorResponse "not configured"
     <> ErrorResponse "cannot use both code and refresh_token"
  /\ ErrorResponse notSupported
     <> ErrorResponse "cannot use both code and refresh_token".
Proof.
  repeat split; try (vm_compute; reflexivity).
  - intros H. apply (f_equal (fun r => Data r !! "error")) in H.
    vm_compute in H. discriminate.
  - intros H. apply (f_equal (fun r => Data r !! "error")) in H.
    vm_compute in H. discriminate.
Qed.

Lemma scopes_not_declared (data : FieldData) : GetOkSlice data "scopes" = None.
Proof. reflexivity. Qed.

Lemma Valid_not_expired (now : Z) (tok : Token) :
  Valid now tok = true -> expired now tok = false.
Proof.
  unfold Valid. intros H. apply andb_true_iff in H as [_ H].
  apply negb_true_iff in H. exact H.
Qed.

(** C2, as amended: when the token that [getRefreshToken] hands back for
    the credential is expired (it could not be refreshed), a read returns
    the error response [token expired] with no Go error; that response
    carries the message under [error] and no [access_token].  Whatever
    [getRefreshToken] hands back, a response of a read carries an
    [access_token] only for a token that is valid, so not expired, at that
    time. *)
Lemma ErrorResponse_no_token (text : string) :
  Data (ErrorResponse text) !! "access_token" = None.
Proof. unfold ErrorResponse. simpl. apply lookup_singleton_ne. discriminate. Qed.

Theorem expired_read (w : world) (data : FieldData) (st : store) :
  (forall tok s',
      w_getRefreshToken w (entries st) (credKey (Get data "name")) None false
      = ((Some tok, None), s') ->
      expired (w_now w) tok = true ->
      run w (credsReadOperation data) st
      = Some ((Some (ErrorResponse "token expired"), None), mkStore s' (held st),
              [Ev (GetRefreshToken (credKey (Get data "name")) None false) (Some tok, None);
               Ev TimeNow (w_now w)])
      /\ Data (ErrorResponse "token expired") !! "error"
         = Some (VString "token expired")
      /\ Data (ErrorResponse "token expired") !! "access_token" = None)
  /\ (forall resp e st' tr v,
        run w (credsReadOperation data) st = Some ((Some resp, e), st', tr) ->
        Data resp !! "access_token" = Some v ->
        exists tok s',
          w_getRefreshToken w (entries st) (credKey (Get data "name")) None false
          = ((Some tok, None), s')
          /\ v = VString (AccessToken tok)
          /\ Valid (w_now w) tok = true /\ expired (w_now w) tok = false).
Proof.
  unfold credsReadOperation. rewrite scopes_not_declared.
  generalize (credKey (Get data "name")). intros key.
  split.
  - intros tok s' Hgot Hexp.
    split; [| split; [reflexivity | apply ErrorResponse_no_token]].
    run_step. rewrite Hgot. run_step.
    unfold Valid. rewrite Hexp, andb_false_r. reflexivity.
  - intros resp e st' tr v. run_step.
    destruct (w_getRefreshToken w (entries st) key None false)
      as [[tok err] s'] eqn:Hgot.
    destruct tok as [tok |]; (destruct err as [err |]; [destruct err |]); run_step;
      try discriminate;
      try (intros [= <- _ _ _] Hv; rewrite ErrorResponse_no_token in Hv; discriminate).
    destruct (Valid (w_now w) tok) eqn:Hvalid; run_step.
    + intros [= <- _ _ _] Hv. exists tok, s'.
      split; [reflexivity |]. split; [| split; [exact Hvalid |]].
      * destruct (negb (IsZero (Expiry tok))); simpl in Hv.
        -- rewrite lookup_insert_ne in Hv by discriminate.
           rewrite lookup_insert_ne in Hv by discriminate.
           rewrite lookup_singleton_eq in Hv. congruence.
        -- rewrite lookup_insert_ne in Hv by discriminate.
           rewrite lookup_singleton_eq in Hv. congruence.
      * apply Valid_not_expired. exact Hvalid.
    + intros [= <- _ _ _] Hv. rewrite ErrorResponse_no_token in Hv. discriminate.
Qed.

Lemma expired_read_witness :
  run (samples.world_of (Ok (Some samples.cfg)) (Ok samples.three_legged)
         (Ok samples.fresh) (Some samples.stale, None) 100000000000)
      (credsReadOperation samples.name_only) samples.empty_store
  = Some ((Some (ErrorResponse "token expired"), None), samples.empty_store,
          [Ev (GetRefreshToken (credKey "a") None false) (Some samples.stale, None);
           Ev TimeNow 100000000000]).
Proof.
  exact (proj1 (proj1 (expired_read
                         (samples.world_of (Ok (Some samples.cfg))
                            (Ok samples.three_legged) (Ok samples.fresh)
                            (Some samples.stale, None) 100000000000)
                         samples.name_only samples.empty_store)
                 samples.stale ∅ eq_refl eq_refl)).
Defined.

(** C2, as stated, fails: the read of a credential whose token expired
    and was handed back unrefreshed answers with an error response, and
    the expired access token is not in it. *)
Lemma expired_token_not_returned :
  expired 100000000000 samples.stale = true
  /\ exists resp st' tr,
      run (samples.world_of (Ok (Some samples.cfg)) (Ok samples.three_legged)
             (Ok samples.fresh) (Some samples.stale, None) 100000000000)
          (credsReadOperation samples.name_only) samples.empty_store
      = Some ((Some resp, None), st', tr)
      /\ resp = ErrorResponse "token expired"
      /\ Data resp !! "error" = Some (VString "token expired")
      /\ Data resp !! "access_token" = None
      /\ Data resp !! "access_token" <> Some (VString (AccessToken samples.stale)).
Proof.
  split; [reflexivity |].
  eexists _, _, _. split; [vm_compute; reflexivity |].
  split; [reflexivity |]. split; [vm_compute; reflexivity |].
  split; [vm_compute; reflexivity | vm_compute; discriminate].
Qed.

End backend_spec.

(** * The store mutex *)

Module mutex_spec.
Import oauth2 provider backend backend_spec.

(** [credsDeleteOperation] does everything with the mutex held. *)
Lemma delete_disciplined (data : FieldData) :
  disciplined all_locked false (credsDeleteOperation data).
Proof.
  unfold credsDeleteOperation, locked, call, mbind, prog_bind, mret, prog_ret. simpl.
  split; [reflexivity |]. intros _. split; [reflexivity |].
  intros [err |]; simpl; (split; [reflexivity |]); intros _; reflexivity.
Qed.

Lemma storeToken_disciplined (key : string) (tok : Token) :
  disciplined calls_unlocked false (storeToken key tok).
Proof.
  unfold storeToken, locked, call, mbind, prog_bind, mret, prog_ret. simpl.
  split; [reflexivity |]. intros _. split; [reflexivity |].
  intros [entry | err]; simpl.
  - split; [reflexivity |].
    intros [err |]; simpl; (split; [reflexivity |]); intros _; reflexivity.
  - split; [reflexivity |]. intros _. reflexivity.
Qed.

(** [credsUpdateOperation] reads the configuration and calls the token
    endpoint without the mutex, and writes the storage with it. *)
Lemma update_disciplined (data : FieldData) :
  disciplined calls_unlocked false (credsUpdateOperation data).
Proof.
  unfold credsUpdateOperation, call, mbind, prog_bind, mret, prog_ret. simpl.
  split; [reflexivity |].
  intros [[c |] | err]; simpl; [| reflexivity | reflexivity].
  split; [reflexivity |].
  intros [p | err]; simpl; [| reflexivity].
  destruct (negb (IsAuthorizationRequired p)); simpl; [reflexivity |].
  destruct (GetOk data "code") as [code |];
    destruct (GetOk data "refresh_token") as [rt |]; simpl; try reflexivity.
  - split; [reflexivity |].
    intros [tok | err]; [apply storeToken_disciplined |].
    destruct err; simpl; try reflexivity.
    split; [reflexivity |]. intros _. reflexivity.
  - split; [reflexivity |].
    intros [tok | err]; [apply storeToken_disciplined |].
    destruct err; simpl; try reflexivity.
    split; [reflexivity |]. intros _. reflexivity.
Qed.

Lemma delete_disciplined_calls (data : FieldData) :
  disciplined calls_unlocked false (credsDeleteOperation data).
Proof.
  unfold credsDeleteOperation, locked, call, mbind, prog_bind, mret, prog_ret. simpl.
  split; [reflexivity |]. intros _. split; [reflexivity |].
  intros [err |]; simpl; (split; [reflexivity |]); intros _; reflexivity.
Qed.

(** A disciplined handler that starts in step with the mutex returns, with
    the mutex free, and its trace shows the discipline. *)
Lemma disciplined_run (allowed : bool -> forall X, cmd X -> bool) (w : world)
    (p : prog reply) (h : bool) (s : gmap string string) :
  disciplined allowed h p ->
  exists r s' tr,
    run w p (mkStore s h) = Some (r, mkStore s' false, tr)
    /\ trace_allowed allowed h tr = true.
Proof.
  revert h s. induction p as [r | X c k IH]; intros h s; simpl.
  - intros ->. eauto.
  - unfold handle. simpl.
    destruct (is_lock c) eqn:Hl; [| destruct (is_unlock c) eqn:Hu].
    + intros [-> Hk].
      destruct (IH (perform w c s).1 true s (Hk _)) as (r & s' & tr & Hrun & Htr).
      rewrite Hrun. eexists _, _, _. split; [reflexivity |].
      simpl. rewrite Hl. exact Htr.
    + intros [-> Hk].
      destruct (IH (perform w c s).1 false s (Hk _)) as (r & s' & tr & Hrun & Htr).
      rewrite Hrun. eexists _, _, _. split; [reflexivity |].
      simpl. rewrite Hl, Hu. exact Htr.
    + intros [Hal Hk]. destruct (perform w c s) as [x s1].
      destruct (IH x h s1 (Hk _)) as (r & s' & tr & Hrun & Htr).
      rewrite Hrun. eexists _, _, _. split; [reflexivity |].
      simpl. rewrite Hl, Hu, Hal. exact Htr.
Qed.

(** ** Handlers side by side *)

Section Pools.

Variable allowed : bool -> forall X, cmd X -> bool.
Variable w : world.

(** A step of goroutine [i] keeps it disciplined, and does not change
    whether another goroutine is the owner. *)
Lemma thread_step_ok (i : nat) (t t' : thread) (s s' : gmap string string)
    (o o' : option nat) :
  thread_ok allowed (bool_decide (o = Some i)) t ->
  thread_step w i t s o = Some (t', s', o') ->
  thread_ok allowed (bool_decide (o' = Some i)) t'
  /\ forall j, j <> i -> bool_decide (o' = Some j) = bool_decide (o = Some j).
Proof.
  destruct t as [[r | X c k] | call k]; simpl.
  - discriminate.
  - destruct c; simpl;
      try (intros [Hal Hk];
           try match goal with
               | |- context [w_json w ?t] => destruct (w_json w t)
               | |- context [w_put w ?e] => destruct (w_put w e)
               | |- context [w_delete w ?e] => destruct (w_delete w e)
               | |- context [w_getRefreshToken w ?a ?b ?c ?d] =>
                   destruct (w_getRefreshToken w a b c d)
               end;
           intros [= <- <- <-]; (split; [apply Hk | reflexivity])).
    + intros [Hh Hk]. destruct o as [j |]; [discriminate |].
      intros [= <- <- <-]. rewrite bool_decide_eq_true_2 by reflexivity.
      split; [apply Hk |].
      intros j Hj. rewrite !bool_decide_eq_false_2; [reflexivity | discriminate |].
      intros [= ->]. contradiction.
    + intros [Hh Hk]. rewrite Hh. intros [= <- <- <-].
      apply bool_decide_eq_true_1 in Hh. subst o.
      split; [apply Hk |].
      intros j Hj. rewrite !bool_decide_eq_false_2; [reflexivity | | discriminate].
      intros [= ->]. contradiction.
    + intros [Hal Hk] [= <- <- <-]. split; [simpl; split; assumption | reflexivity].
  - intros [Hal Hk] [= <- <- <-]. split; [apply Hk | reflexivity].
Qed.

Lemma pool_step_ok (i : nat) (g g' : pool) :
  pool_ok allowed g -> pool_step w i g = Some g' -> pool_ok allowed g'.
Proof.
  intros Hok. unfold pool_step.
  destruct (threads g !! i) as [t |] eqn:Ht; [| discriminate].
  destruct (thread_step w i t (shared g) (owner g)) as [[[t' s'] o'] |] eqn:Hs;
    [| discriminate].
  intros [= <-].
  destruct (thread_step_ok i t t' _ _ _ _ (Hok i t Ht) Hs) as [Hi Hothers].
  intros j tj. simpl.
  destruct (decide (i = j)) as [<- | Hne].
  - rewrite list_lookup_insert_eq by (eapply lookup_lt_Some; exact Ht).
    intros [= <-]. exact Hi.
  - rewrite list_lookup_insert_ne by exact Hne.
    intros Hj. rewrite Hothers by congruence. apply Hok. exact Hj.
Qed.

Lemma run_schedule_ok (sched : list nat) (g g' : pool) :
  pool_ok allowed g -> run_schedule w sched g = Some g' -> pool_ok allowed g'.
Proof.
  revert g. induction sched as [| i sched IH]; simpl; intros g Hok.
  - intros [= <-]. exact Hok.
  - destruct (pool_step w i g) as [g1 |] eqn:Hstep; [| discriminate].
    apply IH. eapply pool_step_ok; eassumption.
Qed.

End Pools.

Lemma start_ok (reqs : list (Operation * FieldData)) (s : gmap string string) :
  Forall (fun r => fst r <> ReadOperation) reqs ->
  pool_ok calls_unlocked (start reqs s).
Proof.
  intros Hreqs i t. unfold start. simpl. rewrite list_lookup_fmap.
  destruct (reqs !! i) as [[op data] |] eqn:Hi; simpl; [| discriminate].
  intros [= <-]. simpl.
  pose proof (Forall_lookup_1 _ _ _ _ Hreqs Hi) as Hop. simpl in Hop.
  destruct op; simpl; [contradiction | apply update_disciplined
                       | apply delete_disciplined_calls].
Qed.

(** The mutex is held for the encoding and the write, or the delete, only. *)
Lemma update_window (data : FieldData) :
  disciplined window_only false (credsUpdateOperation data).
Proof.
  unfold credsUpdateOperation, storeToken, locked, call, mbind, prog_bind, mret,
    prog_ret.
  simpl. split; [reflexivity |].
  intros [[c |] | err]; simpl; [| reflexivity | reflexivity].
  split; [reflexivity |].
  intros [p | err]; simpl; [| reflexivity].
  destruct (negb (IsAuthorizationRequired p)); simpl; [reflexivity |].
  destruct (GetOk data "code") as [code |];
    destruct (GetOk data "refresh_token") as [rt |]; simpl; try reflexivity.
  all: split; [reflexivity |].
  all: intros [tok | err]; simpl.
  all: try (destruct err; simpl; try reflexivity;
            split; [reflexivity |]; intros _; reflexivity).
  all: split; [reflexivity |]; intros _.
  all: split; [reflexivity |].
  all: intros [entry | err]; simpl.
  all: try (split; [reflexivity |]; intros _; reflexivity).
  all: split; [reflexivity |].
  all: intros [err |]; simpl; (split; [reflexivity |]); intros _; reflexivity.
Qed.

Lemma delete_window (data : FieldData) :
  disciplined window_only false (credsDeleteOperation data).
Proof.
  unfold credsDeleteOperation, locked, call, mbind, prog_bind, mret, prog_ret. simpl.
  split; [reflexivity |]. intros _. split; [reflexivity |].
  intros [err |]; simpl; (split; [reflexivity |]); intros _; reflexivity.
Qed.

Lemma start_window (reqs : list (Operation * FieldData)) (s : gmap string string) :
  Forall (fun r => fst r <> ReadOperation) reqs ->
  pool_ok window_only (start reqs s).
Proof.
  intros Hreqs i t. unfold start. simpl. rewrite list_lookup_fmap.
  destruct (reqs !! i) as [[op data] |] eqn:Hi; simpl; [| discriminate].
  intros [= <-]. simpl.
  pose proof (Forall_lookup_1 _ _ _ _ Hreqs Hi) as Hop. simpl in Hop.
  destruct op; [contradiction | exact (update_window data) | exact (delete_window data)].
Qed.

(** The trace of a write: the discipline, and what it does from its
    [Lock] on. *)
Lemma update_trace (w : world) (data : FieldData) (s : gmap string string) :
  exists r s' tr,
    run w (credsUpdateOperation data) (mkStore s false)
    = Some (r, mkStore s' false, tr)
    /\ trace_allowed calls_unlocked false tr = true
    /\ trace_allowed window_only false tr = true
    /\ (from_lock tr = []
        \/ exists call tok,
             token_answers tr = [(call, Ok tok)]
             /\ ((exists err,
                    from_lock tr
                    = [Ev MutLock tt;
                       Ev (StorageEntryJSON (credKey (Get data "name")) tok) (Err err);
                       Ev MutUnlock tt])
                 \/ (exists entry perr,
                       from_lock tr
                       = [Ev MutLock tt;
                          Ev (StorageEntryJSON (credKey (Get data "name")) tok)
                             (Ok entry);
                          Ev (StoragePut entry) perr;
                          Ev MutUnlock tt]))).
Proof.
  unfold credsUpdateOperation. generalize (credKey (Get data "name")). intros key.
  run_step. repeat run_case.
  all: eexists _, _, _; (split; [reflexivity |]).
  all: split; [reflexivity |]; split; [reflexivity |].
  all: first [ left; reflexivity
             | right; eexists _, _; split; [reflexivity |];
               first [ left; eexists; reflexivity
                     | right; eexists _, _; reflexivity ] ].
Qed.

(** C1, as amended: [credsDeleteOperation] takes the store mutex before it
    touches the storage and does everything with it held;
    [credsUpdateOperation] reads the configuration and makes its token
    call without the mutex, and holds the mutex only around the encoding
    and the write of the record: with the mutex it does nothing but these,
    without it neither of them, and from its [Lock] on its trace is the
    [Lock], the encoding of the token the provider answered under the key
    of the name, the [Put] of the encoded entry if the encoding went well,
    and the [Unlock]; both return with the mutex released.  Side by side,
    on any schedule of writes and deletes, only the owner of the mutex is
    ever about to write the storage, so at most one goroutine is, and a
    goroutine whose token call is in flight, or that has returned, does
    not own the mutex; only the owner is at an encoding or a write, and
    the owner is at nothing else but these and its [Unlock]. *)
Theorem store_mutex (w : world) :
  (forall data s,
      exists r s' tr,
        run w (credsDeleteOperation data) (mkStore s false)
        = Some (r, mkStore s' false, tr)
        /\ trace_allowed all_locked false tr = true
        /\ trace_allowed window_only false tr = true)
  /\ (forall data s,
        exists r s' tr,
          run w (credsUpdateOperation data) (mkStore s false)
          = Some (r, mkStore s' false, tr)
          /\ trace_allowed calls_unlocked false tr = true
          /\ trace_allowed window_only false tr = true
          /\ (from_lock tr = []
              \/ exists call tok,
                   token_answers tr = [(call, Ok tok)]
                   /\ ((exists err,
                          from_lock tr
                          = [Ev MutLock tt;
                             Ev (StorageEntryJSON (credKey (Get data "name")) tok)
                                (Err err);
                             Ev MutUnlock tt])
                       \/ (exists entry perr,
                             from_lock tr
                             = [Ev MutLock tt;
                                Ev (StorageEntryJSON (credKey (Get data "name")) tok)
                                   (Ok entry);
                                Ev (StoragePut entry) perr;
                                Ev MutUnlock tt]))))
  /\ (forall reqs s sched g,
        Forall (fun r => fst r <> ReadOperation) reqs ->
        run_schedule w sched (start reqs s) = Some g ->
        (forall i t, threads g !! i = Some t -> about_to_write t = true ->
                     owner g = Some i)
        /\ (forall i j ti tj,
              threads g !! i = Some ti -> threads g !! j = Some tj ->
              about_to_write ti = true -> about_to_write tj = true -> i = j)
        /\ (forall i t, threads g !! i = Some t -> in_flight t = true ->
                        owner g <> Some i)
        /\ (forall i r, threads g !! i = Some (Active (Ret r)) -> owner g <> Some i)
        /\ (forall i t, threads g !! i = Some t -> at_record t = true ->
                        owner g = Some i)
        /\ (forall i t, threads g !! i = Some t -> owner g = Some i ->
                        at_record t || at_unlock t = true)).
Proof.
  split; [| split].
  - intros data s. rewrite delete_runs. eexists _, _, _.
    split; [reflexivity |]. split; reflexivity.
  - intros data s. apply update_trace.
  - intros reqs s sched g Hreqs Hrun.
    pose proof (run_schedule_ok calls_unlocked w sched _ _ (start_ok reqs s Hreqs) Hrun)
      as Hok.
    pose proof (run_schedule_ok window_only w sched _ _ (start_window reqs s Hreqs) Hrun)
      as Hwin.
    assert (Hwrite : forall i t, threads g !! i = Some t -> about_to_write t = true ->
                                 owner g = Some i).
    { intros i t Ht Hw. specialize (Hok i t Ht).
      destruct t as [[r | X c k] | call k]; simpl in Hw; try discriminate.
      simpl in Hok.
      destruct c; simpl in Hw; try discriminate; simpl in Hok;
        destruct Hok as [Hal _]; unfold calls_unlocked in Hal; simpl in Hal;
        rewrite andb_true_r in Hal; apply bool_decide_eq_true_1 in Hal; exact Hal. }
    split; [exact Hwrite |]. split; [| split; [| split; [| split]]].
    + intros i j ti tj Hi Hj Hwi Hwj.
      pose proof (Hwrite i ti Hi Hwi) as Hoi.
      pose proof (Hwrite j tj Hj Hwj) as Hoj. congruence.
    + intros i t Ht Hf Ho. specialize (Hok i t Ht).
      destruct t as [p | call k]; simpl in Hf; [discriminate |].
      rewrite bool_decide_eq_true_2 in Hok by exact Ho.
      destruct Hok as [Hal _]. discriminate.
    + intros i r Ht Ho. specialize (Hok i _ Ht). simpl in Hok.
      rewrite bool_decide_eq_true_2 in Hok by exact Ho. discriminate.
    + intros i t Ht Hrec. specialize (Hwin i t Ht).
      destruct t as [[r | X c k] | call k]; simpl in Hrec; try discriminate.
      simpl in Hwin.
      destruct c; simpl in Hrec; try discriminate; simpl in Hwin;
        destruct Hwin as [Hal _]; unfold window_only in Hal; simpl in Hal;
        destruct (bool_decide (owner g = Some i)) eqn:Ho; try discriminate;
        apply bool_decide_eq_true_1 in Ho; exact Ho.
    + intros i t Ht Ho. specialize (Hwin i t Ht).
      rewrite bool_decide_eq_true_2 in Hwin by exact Ho.
      destruct t as [[r | X c k] | call k]; simpl in Hwin.
      * discriminate.
      * destruct c; simpl in Hwin; simpl;
          first [ reflexivity
                | destruct Hwin as [Hal _]; discriminate ].
      * destruct Hwin as [Hal _]. discriminate.
Qed.

Lemma store_mutex_witness :
  exists g,
    run_schedule samples.healthy [0; 0; 0; 0; 0; 0]%nat
      (start samples.write_and_delete ∅) = Some g
    /\ about_to_write <$> threads g = [true; false]
    /\ owner g = Some 0%nat.
Proof.
  destruct (run_schedule samples.healthy [0; 0; 0; 0; 0; 0]%nat
              (start samples.write_and_delete ∅)) as [g |] eqn:Hrun;
    [| vm_compute in Hrun; discriminate].
  exists g. split; [reflexivity |].
  assert (Hreqs : Forall (fun r => fst r <> ReadOperation) samples.write_and_delete)
    by (repeat constructor; discriminate).
  destruct (proj2 (proj2 (store_mutex samples.healthy)) _ _ _ _ Hreqs Hrun)
    as (Hwrite & _).
  vm_compute in Hrun. injection Hrun as <-.
  split; [reflexivity |].
  eapply Hwrite; [reflexivity | reflexivity].
Defined.

(** C1, as stated, fails: the token exchange of a write happens before the
    write takes the mutex (and so does its read of the configuration), and
    two writes can have their exchanges in flight at the same time, with
    the mutex free. *)
Lemma exchange_without_mutex :
  (exists tr,
      run samples.healthy (credsUpdateOperation samples.with_code) samples.empty_store
      = Some ((None, None),
              mkStore {[ credKey "a" := "new-token" ]} false, tr)
      /\ tr = [Ev GetConfig (Ok (Some samples.cfg));
               Ev (ConfigProvider samples.cfg) (Ok samples.three_legged);
               Ev (CallToken
                     (Exchange (ebBuild (NewExchangeConfigBuilder samples.three_legged
                                           "client-id" "client-secret")) "X"))
                  (Ok samples.fresh);
               Ev MutLock tt;
               Ev (StorageEntryJSON (credKey "a") samples.fresh)
                  (Ok (mkStorageEntry (credKey "a") "new-token"));
               Ev (StoragePut (mkStorageEntry (credKey "a") "new-token")) None;
               Ev MutUnlock tt]
      /\ trace_allowed calls_locked false tr = false
      /\ trace_allowed exchange_locked false tr = false)
  /\ (exists g,
        run_schedule samples.healthy [0; 0; 0; 1; 1; 1]%nat
          (start samples.two_writes ∅) = Some g
        /\ in_flight <$> threads g = [true; true]
        /\ owner g = None).
Proof.
  split.
  - eexists. split; [vm_compute; reflexivity |]. repeat split; reflexivity.
  - eexists. split; [vm_compute; reflexivity |]. split; reflexivity.
Qed.

End mutex_spec.

(** * The route of the credential endpoint *)

Module route_spec.
Import backend route.

Lemma matches_Never (s : list ascii) : matches Never s = false.
Proof. induction s as [| a s IH]; [reflexivity | exact IH]. Qed.

Lemma matches_Eps (s : list ascii) : matches Eps s = true <-> s = [].
Proof.
  destruct s as [| a s]; simpl; [tauto |].
  rewrite matches_Never. split; discriminate.
Qed.

Lemma matches_EndText (s : list ascii) : matches EndText s = true <-> s = [].
Proof.
  destruct s as [| a s]; simpl; [tauto |].
  rewrite matches_Never. split; discriminate.
Qed.

Lemma matches_Class (p : ascii -> bool) (s : list ascii) :
  matches (Class p) s = true <-> exists a, s = [a] /\ p a = true.
Proof.
  destruct s as [| a s]; simpl.
  - split; [discriminate | intros (a & [=] & _)].
  - destruct (p a) eqn:Hp.
    + rewrite matches_Eps.
      split; [intros ->; eauto | intros (b & [= ? ?] & _); assumption].
    + rewrite matches_Never.
      split; [discriminate | intros (b & [= ? ?] & Hb); congruence].
Qed.

Lemma matches_Alt (r1 r2 : regex) (s : list ascii) :
  matches (Alt r1 r2) s = matches r1 s || matches r2 s.
Proof. revert r1 r2. induction s as [| a s IH]; intros r1 r2; simpl; [reflexivity | apply IH]. Qed.

Lemma matches_Group (name : option string) (r : regex) (s : list ascii) :
  matches (Group name r) s = matches r s.
Proof. destruct s; reflexivity. Qed.

Lemma matches_Cat (r1 r2 : regex) (s : list ascii) :
  matches (Cat r1 r2) s = true
  <-> exists s1 s2, s = (s1 ++ s2)%list /\ matches r1 s1 = true /\ matches r2 s2 = true.
Proof.
  revert r1 r2. induction s as [| a s IH]; intros r1 r2; simpl.
  - rewrite andb_true_iff. split.
    + intros [H1 H2]. exists [], []. auto.
    + intros (s1 & s2 & Hs & H1 & H2).
      destruct s1; [| discriminate]. destruct s2; [| discriminate]. auto.
  - assert (Hcons : matches (Cat (deriv a r1) r2) s = true
                    <-> exists s1 s2, a :: s = ((a :: s1) ++ s2)%list
                                      /\ matches r1 (a :: s1) = true
                                      /\ matches r2 s2 = true).
    { rewrite IH. split.
      - intros (s1 & s2 & -> & H1 & H2). exists s1, s2. auto.
      - intros (s1 & s2 & [= ->] & H1 & H2). exists s1, s2. auto. }
    destruct (nullable r1) eqn:Hn.
    + rewrite matches_Alt, orb_true_iff, Hcons. split.
      * intros [(s1 & s2 & Hs & H1 & H2) | H2].
        -- exists (a :: s1), s2. auto.
        -- exists [], (a :: s). auto.
      * intros (s1 & s2 & Hs & H1 & H2). destruct s1 as [| b s1].
        -- right. simpl in Hs. subst s2. exact H2.
        -- left. injection Hs as <- ->. exists s1, s2. auto.
    + rewrite Hcons. split.
      * intros (s1 & s2 & Hs & H1 & H2). exists (a :: s1), s2. auto.
      * intros (s1 & s2 & Hs & H1 & H2). destruct s1 as [| b s1].
        -- simpl in H1. congruence.
        -- injection Hs as <- ->. exists s1, s2. auto.
Qed.

Lemma matches_Lit (p s : list ascii) : matches (Lit p) s = true <-> s = p.
Proof.
  revert s. induction p as [| c p IH]; intros s; simpl.
  - apply matches_Eps.
  - rewrite matches_Cat. split.
    + intros (s1 & s2 & -> & H1 & H2).
      apply matches_Class in H1 as (a & -> & Ha). apply IH in H2 as ->.
      apply Ascii.eqb_eq in Ha as ->. reflexivity.
    + intros ->. exists [c], p. split; [reflexivity |].
      split; [apply matches_Class; exists c; split; [reflexivity | apply Ascii.eqb_refl]
             | apply IH; reflexivity].
Qed.

Lemma matches_Star_Class (p : ascii -> bool) (s : list ascii) :
  matches (Star (Class p)) s = forallb p s.
Proof.
  induction s as [| a s IH]; simpl; [reflexivity |].
  destruct (p a); simpl.
  - rewrite <- IH. apply eq_true_iff_eq. rewrite matches_Cat. split.
    + intros (s1 & s2 & -> & H1 & H2). apply matches_Eps in H1 as ->. exact H2.
    + intros H. exists [], s. auto.
  - apply not_true_is_false. rewrite matches_Cat.
    intros (s1 & s2 & _ & H1 & _). rewrite matches_Never in H1. discriminate.
Qed.

Lemma matches_Plus_Class (p : ascii -> bool) (s : list ascii) :
  matches (Plus (Class p)) s = true <-> s <> [] /\ forallb p s = true.
Proof.
  unfold Plus. rewrite matches_Cat. split.
  - intros (s1 & s2 & -> & H1 & H2).
    apply matches_Class in H1 as (a & -> & Ha). rewrite matches_Star_Class in H2.
    split; [discriminate |]. simpl. rewrite Ha, H2. reflexivity.
  - intros [Hne Hall]. destruct s as [| a s]; [contradiction |].
    simpl in Hall. apply andb_true_iff in Hall as [Ha Hs].
    exists [a], s. split; [reflexivity |].
    split; [apply matches_Class; eauto | rewrite matches_Star_Class; exact Hs].
Qed.

Lemma word_in_class (a : ascii) : is_word a = true -> in_class a = true.
Proof. unfold in_class. intros ->. reflexivity. Qed.

Lemma name_regex (nm : string) (n : list ascii) :
  matches (Cat (credentialNameRegex nm) EndText) n = name_ok n.
Proof.
  apply eq_true_iff_eq. unfold credentialNameRegex. rewrite matches_Cat. split.
  - intros (s1 & s2 & -> & H1 & H2). apply matches_EndText in H2 as ->.
    rewrite app_nil_r. rewrite matches_Group, matches_Cat in H1.
    destruct H1 as (a1 & t & -> & Hc & Ht).
    apply matches_Class in Hc as (c & -> & Hc).
    unfold Opt in Ht at 1. rewrite matches_Alt, orb_true_iff in Ht.
    simpl. rewrite Hc. simpl. destruct Ht as [Ht | Ht].
    + rewrite matches_Group, matches_Cat in Ht.
      destruct Ht as (m & u & -> & Hm & Hd).
      apply matches_Class in Hd as (d & -> & Hd).
      rewrite List.last_last, Hd, forallb_app. simpl.
      rewrite (word_in_class d Hd), andb_true_r.
      unfold Opt in Hm. rewrite matches_Alt, orb_true_iff, matches_Group in Hm.
      destruct Hm as [Hm | Hm].
      * apply matches_Plus_Class in Hm as [_ Hm]. exact Hm.
      * apply matches_Eps in Hm as ->. reflexivity.
    + apply matches_Eps in Ht as ->. simpl. rewrite Hc. reflexivity.
  - destruct n as [| c t]; simpl; [discriminate |].
    rewrite !andb_true_iff. intros [[Hc Hlast] Hall].
    exists (c :: t), []. split; [rewrite app_nil_r; reflexivity |].
    split; [| reflexivity].
    rewrite matches_Group, matches_Cat. exists [c], t. split; [reflexivity |].
    split; [apply matches_Class; eauto |].
    unfold Opt at 1. rewrite matches_Alt, orb_true_iff.
    destruct t as [| b t']; [right; reflexivity | left].
    assert (Hne : b :: t' <> []) by discriminate.
    rewrite (app_removelast_last c Hne) in Hall. rewrite forallb_app in Hall.
    apply andb_true_iff in Hall as [Hmid _].
    rewrite matches_Group, matches_Cat.
    exists (removelast (b :: t')), [List.last (b :: t') c].
    split; [apply app_removelast_last; exact Hne |].
    split; [| apply matches_Class; eauto].
    unfold Opt. rewrite matches_Alt, orb_true_iff, matches_Group.
    destruct (removelast (b :: t')) as [| x m] eqn:Hm; [right; reflexivity | left].
    apply matches_Plus_Class. split; [discriminate | exact Hmid].
Qed.

Lemma list_ascii_append (s t : string) :
  list_ascii_of_string (s +:+ t)
  = (list_ascii_of_string s ++ list_ascii_of_string t)%list.
Proof.
  induction s as [| a s IH]; [reflexivity |].
  change (String a s +:+ t) with (String a (s +:+ t)). simpl. rewrite IH. reflexivity.
Qed.

(** The framework routes a path to the credential handlers exactly when it
    is [creds/] followed by a name that is not empty, starts and ends with
    a word character (an ASCII letter, a digit or [_]) and has only word
    characters and [. @ ~ ! _ , : ^ -] in between; such a name has no
    slash, space or line break in it. *)
Theorem routed_names (path : string) :
  (routed path = true
   <-> exists n, path = credsPathPrefix +:+ n
                 /\ name_ok (list_ascii_of_string n) = true)
  /\ (forall n, name_ok (list_ascii_of_string n) = true ->
                n <> EmptyString
                /\ forall a, In a (list_ascii_of_string n) ->
                             in_class a = true
                             /\ a <> "/"%char /\ a <> " "%char /\ a <> "010"%char).
Proof.
  split.
  - unfold routed, Pattern. rewrite matches_Cat. split.
    + intros (s1 & s2 & Hs & H1 & H2). apply matches_Lit in H1 as ->.
      rewrite name_regex in H2.
      exists (string_of_list_ascii s2). split.
      * rewrite <- (string_of_list_ascii_of_string path), Hs.
        rewrite <- (list_ascii_of_string_of_list_ascii s2) at 1.
        rewrite <- list_ascii_append. apply string_of_list_ascii_of_string.
      * rewrite list_ascii_of_string_of_list_ascii. exact H2.
    + intros (n & -> & Hn).
      exists (list_ascii_of_string credsPathPrefix), (list_ascii_of_string n).
      split; [apply list_ascii_append |].
      split; [apply matches_Lit; reflexivity | rewrite name_regex; exact Hn].
  - intros n Hn. split.
    + intros ->. discriminate.
    + intros a Ha.
      assert (Hcls : in_class a = true).
      { destruct (list_ascii_of_string n) as [| c t]; [contradiction |].
        simpl in Hn. rewrite !andb_true_iff in Hn. destruct Hn as [[Hc _] Hall].
        destruct Ha as [<- | Ha]; [apply word_in_class; exact Hc |].
        rewrite forallb_forall in Hall. apply Hall. exact Ha. }
      split; [exact Hcls |].
      repeat split; intros ->; vm_compute in Hcls; discriminate.
Qed.

Lemma routed_names_witness : routed "creds/my-user-tokens" = true.
Proof.
  apply (proj2 (proj1 (routed_names "creds/my-user-tokens"))).
  exists "my-user-tokens". split; vm_compute; reflexivity.
Defined.

Example route_samples :
  routed "creds/a" = true /\ routed "creds/user@example.com" = true
  /\ routed "creds/" = false /\ routed "creds/-a" = false
  /\ routed "creds/a." = false /\ routed "creds/a/b" = false
  /\ routed "config" = false.
Proof. vm_compute. repeat split. Qed.

End route_spec.

(** * The builders on the heap *)

Module heap_spec.
Import oauth2 provider.

(** The heap holds the builder [cb], whose configuration and client are
    those of the value [v]. *)
Lemma setter_related (cb : nat) (f : heap.setter) (h : heap.heap)
    (v : basicExchangeConfigBuilder) (o : heap.builderObj) :
  heap.builders h !! cb = Some o ->
  heap.configs h !! heap.bo_config o = Some (ebConfig v) ->
  heap.bo_client o = ebClient v ->
  exists h' o',
    heap.apply_heap cb f h = Some h'
    /\ heap.builders h' !! cb = Some o'
    /\ heap.bo_config o' = heap.bo_config o
    /\ heap.configs h' !! heap.bo_config o' = Some (ebConfig (heap.apply_value f v))
    /\ heap.bo_client o' = ebClient (heap.apply_value f v)
    /\ (forall p, p <> heap.bo_config o -> heap.configs h' !! p = heap.configs h !! p)
    /\ (forall p, p <> cb -> heap.builders h' !! p = heap.builders h !! p).
Proof.
  intros Hb Hc Hcl. destruct f as [client | u]; simpl.
  - unfold heap.WithHTTPClient. rewrite Hb. eexists _, _.
    split; [reflexivity |]. simpl. rewrite lookup_insert_eq.
    split; [reflexivity |]. simpl.
    split; [reflexivity |]. split; [exact Hc |]. split; [reflexivity |].
    split; [reflexivity |]. intros p Hp. apply lookup_insert_ne. congruence.
  - unfold heap.WithRedirectURL. rewrite Hb, Hc. eexists _, _.
    split; [reflexivity |]. simpl.
    split; [exact Hb |]. split; [reflexivity |].
    rewrite lookup_insert_eq. split; [reflexivity |]. split; [exact Hcl |].
    split; [| reflexivity]. intros p Hp. apply lookup_insert_ne. congruence.
Qed.

Lemma chain_related (cb : nat) (fs : list heap.setter) (h : heap.heap)
    (v : basicExchangeConfigBuilder) (o : heap.builderObj) :
  heap.builders h !! cb = Some o ->
  heap.configs h !! heap.bo_config o = Some (ebConfig v) ->
  heap.bo_client o = ebClient v ->
  exists h' o',
    heap.chain_heap cb fs h = Some h'
    /\ heap.builders h' !! cb = Some o'
    /\ heap.bo_config o' = heap.bo_config o
    /\ heap.configs h' !! heap.bo_config o' = Some (ebConfig (heap.chain_value fs v))
    /\ heap.bo_client o' = ebClient (heap.chain_value fs v)
    /\ (forall p, p <> heap.bo_config o -> heap.configs h' !! p = heap.configs h !! p)
    /\ (forall p, p <> cb -> heap.builders h' !! p = heap.builders h !! p).
Proof.
  revert h v o. induction fs as [| f fs IH]; intros h v o Hb Hc Hcl; simpl.
  - exists h, o. repeat split; auto.
  - destruct (setter_related cb f h v o Hb Hc Hcl)
      as (h1 & o1 & Hstep & Hb1 & Hp1 & Hc1 & Hcl1 & Hfc1 & Hfb1).
    rewrite Hstep.
    destruct (IH h1 (heap.apply_value f v) o1 Hb1 Hc1 Hcl1)
      as (h2 & o2 & Hchain & Hb2 & Hp2 & Hc2 & Hcl2 & Hfc2 & Hfb2).
    exists h2, o2. split; [exact Hchain |]. split; [exact Hb2 |].
    split; [congruence |]. split; [exact Hc2 |]. split; [exact Hcl2 |].
    split.
    + intros p Hp. rewrite Hfc2 by congruence. apply Hfc1. exact Hp.
    + intros p Hp. rewrite Hfb2 by exact Hp. apply Hfb1. exact Hp.
Qed.

(** A new builder, any run of [WithHTTPClient] and [WithRedirectURL] calls
    on it, [Build] and [Exchange]: on the heap every call finds its
    objects, the token call made is the one the builder values of
    [provider] give, and no configuration or builder that was on the heap
    before is changed. *)
Theorem builder_chain (b : basic) (clientID clientSecret code : string)
    (fs : list heap.setter) (h : heap.heap) :
  exists h' ec,
    heap.chain_heap (heap.NewExchangeConfigBuilder b clientID clientSecret h).1 fs
      (heap.NewExchangeConfigBuilder b clientID clientSecret h).2 = Some h'
    /\ heap.Build (heap.NewExchangeConfigBuilder b clientID clientSecret h).1 h' = Some ec
    /\ heap.Exchange ec code h'
       = Some (Exchange
                 (ebBuild (heap.chain_value fs
                             (NewExchangeConfigBuilder b clientID clientSecret)))
                 code)
    /\ (forall p c, heap.configs h !! p = Some c -> heap.configs h' !! p = Some c)
    /\ (forall p o, heap.builders h !! p = Some o -> heap.builders h' !! p = Some o).
Proof.
  unfold heap.NewExchangeConfigBuilder. simpl.
  set (pc := fresh (dom (heap.configs h))).
  set (pb := fresh (dom (heap.builders h))).
  assert (Hpc : heap.configs h !! pc = None)
    by (apply not_elem_of_dom; apply is_fresh).
  assert (Hpb : heap.builders h !! pb = None)
    by (apply not_elem_of_dom; apply is_fresh).
  edestruct (chain_related pb fs
               (heap.mkHeap
                  (<[pc := mkOAuth2Config clientID clientSecret (endpoint b)
                             EmptyString []]> (heap.configs h))
                  (<[pb := heap.mkBuilderObj pc None]> (heap.builders h)))
               (NewExchangeConfigBuilder b clientID clientSecret)
               (heap.mkBuilderObj pc None))
    as (h' & o' & Hchain & Hb & Hp & Hc & Hcl & Hfc & Hfb).
  { simpl. apply lookup_insert_eq. }
  { simpl. apply lookup_insert_eq. }
  { reflexivity. }
  exists h', (heap.mkExchangeObj (heap.bo_config o') (heap.bo_client o')).
  split; [exact Hchain |].
  split; [unfold heap.Build; rewrite Hb; reflexivity |].
  split; [unfold heap.Exchange; simpl; rewrite Hc, Hcl; reflexivity |].
  split.
  - intros p c Hpc'. rewrite Hfc; simpl.
    + rewrite lookup_insert_ne by congruence. exact Hpc'.
    + congruence.
  - intros p o Hpo. rewrite Hfb; simpl.
    + rewrite lookup_insert_ne by congruence. exact Hpo.
    + congruence.
Qed.

(** [Build] does not copy the configuration: a redirect URL set on the
    builder after [Build] is the one the built configuration exchanges
    with, while a client set on the builder after [Build] is not seen by
    the built configuration, only by the next [Build]. *)
Theorem build_shares_config (cb : nat) (h : heap.heap) (ec : heap.exchangeObj)
    (code : string) :
  heap.Build cb h = Some ec ->
  (forall u h',
      heap.WithRedirectURL cb u h = Some h' ->
      exists conf,
        heap.Exchange ec code h = Some (ConfigExchange (heap.eo_client ec) conf code)
        /\ heap.Exchange ec code h'
           = Some (ConfigExchange (heap.eo_client ec) (set_RedirectURL conf u) code))
  /\ (forall client h',
        heap.WithHTTPClient cb client h = Some h' ->
        heap.Exchange ec code h' = heap.Exchange ec code h
        /\ heap.Build cb h'
           = Some (heap.mkExchangeObj (heap.eo_config ec) (Some client))).
Proof.
  unfold heap.Build. destruct (heap.builders h !! cb) as [o |] eqn:Hb; [| discriminate].
  intros [= <-]. split.
  - intros u h'. unfold heap.WithRedirectURL. rewrite Hb.
    destruct (heap.configs h !! heap.bo_config o) as [conf |] eqn:Hc; [| discriminate].
    intros [= <-]. exists conf. unfold heap.Exchange. simpl.
    rewrite Hc, lookup_insert_eq. split; reflexivity.
  - intros client h'. unfold heap.WithHTTPClient. rewrite Hb. intros [= <-].
    split; [reflexivity |]. simpl. rewrite lookup_insert_eq. reflexivity.
Qed.

Lemma build_shares_config_witness :
  heap.Exchange (heap.mkExchangeObj 0 None) "X"
    (heap.mkHeap
       {[ 0%nat := set_RedirectURL
                     (mkOAuth2Config "id" "secret" samples.ep EmptyString [])
                     "https://late" ]}
       {[ 0%nat := heap.mkBuilderObj 0 None ]})
  = Some (ConfigExchange None
            (mkOAuth2Config "id" "secret" samples.ep "https://late" []) "X").
Proof.
  pose (h0 := heap.mkHeap
                {[ 0%nat := mkOAuth2Config "id" "secret" samples.ep EmptyString [] ]}
                {[ 0%nat := heap.mkBuilderObj 0 None ]}).
  pose (h1 := heap.mkHeap
                {[ 0%nat := set_RedirectURL
                              (mkOAuth2Config "id" "secret" samples.ep EmptyString [])
                              "https://late" ]}
                {[ 0%nat := heap.mkBuilderObj 0 None ]}).
  assert (Hbuild : heap.Build 0 h0 = Some (heap.mkExchangeObj 0 None))
    by (vm_compute; reflexivity).
  assert (Hset : heap.WithRedirectURL 0 "https://late" h0 = Some h1)
    by (vm_compute; reflexivity).
  destruct (proj1 (build_shares_config 0 h0 (heap.mkExchangeObj 0 None) "X" Hbuild)
              "https://late" h1 Hset)
    as (conf & Hbefore & Hafter).
  vm_compute in Hbefore. injection Hbefore as <-.
  fold h1. rewrite Hafter. vm_compute. reflexivity.
Defined.

(** Two builders made one after the other share nothing: setting the
    redirect URL or the client of the second leaves what the first builds
    and exchanges with as it was. *)
Theorem builders_apart (b1 b2 : basic) (id1 secret1 id2 secret2 code : string)
    (f : heap.setter) (h : heap.heap) :
  exists h' ec,
    heap.apply_heap
      (heap.NewExchangeConfigBuilder b2 id2 secret2
         (heap.NewExchangeConfigBuilder b1 id1 secret1 h).2).1
      f
      (heap.NewExchangeConfigBuilder b2 id2 secret2
         (heap.NewExchangeConfigBuilder b1 id1 secret1 h).2).2
    = Some h'
    /\ heap.Build (heap.NewExchangeConfigBuilder b1 id1 secret1 h).1 h' = Some ec
    /\ heap.Exchange ec code h'
       = Some (Exchange (ebBuild (NewExchangeConfigBuilder b1 id1 secret1)) code).
Proof.
  unfold heap.NewExchangeConfigBuilder. simpl.
  set (pc1 := fresh (dom (heap.configs h))).
  set (pb1 := fresh (dom (heap.builders h))).
  set (c1 := mkOAuth2Config id1 secret1 (endpoint b1) EmptyString []).
  set (c2 := mkOAuth2Config id2 secret2 (endpoint b2) EmptyString []).
  set (pc2 := fresh (dom (<[pc1 := c1]> (heap.configs h)))).
  set (pb2 := fresh (dom (<[pb1 := heap.mkBuilderObj pc1 None]> (heap.builders h)))).
  assert (Hc : pc2 <> pc1).
  { intros Heq. apply (is_fresh (dom (<[pc1 := c1]> (heap.configs h)))).
    fold pc2. rewrite Heq. apply elem_of_dom. rewrite lookup_insert_eq. eauto. }
  assert (Hb : pb2 <> pb1).
  { intros Heq.
    apply (is_fresh (dom (<[pb1 := heap.mkBuilderObj pc1 None]> (heap.builders h)))).
    fold pb2. rewrite Heq. apply elem_of_dom. rewrite lookup_insert_eq. eauto. }
  destruct f as [client | u]; simpl.
  - unfold heap.WithHTTPClient. simpl. rewrite lookup_insert_eq.
    eexists _, _. split; [reflexivity |].
    unfold heap.Build, heap.Exchange. simpl.
    rewrite !lookup_insert_ne by congruence. rewrite lookup_insert_eq.
    split; [reflexivity |]. simpl.
    rewrite lookup_insert_ne by congruence. rewrite lookup_insert_eq. reflexivity.
  - unfold heap.WithRedirectURL. simpl. rewrite lookup_insert_eq. simpl.
    rewrite lookup_insert_eq.
    eexists _, _. split; [reflexivity |].
    unfold heap.Build, heap.Exchange. simpl.
    rewrite lookup_insert_ne by congruence. rewrite lookup_insert_eq.
    split; [reflexivity |]. simpl.
    rewrite !lookup_insert_ne by congruence. rewrite lookup_insert_eq. reflexivity.
Qed.

End heap_spec.

(** * More on the provider factories and builders *)

Module provider_more.
Import oauth2 provider runs.

Section Custom.

Variable oidcNewProvider : string -> Endpoint + string.

(** What [customFactory] has checked and read when it returns a provider. *)
Lemma customFactory_built (required : bool) (v : Z) (opts : gmap string string)
    (p : basic) :
  customFactory oidcNewProvider required v opts = Ok p ->
  Version p = 1 /\ IsAuthorizationRequired p = required
  /\ TokenURL (endpoint p) <> EmptyString
  /\ (required = true -> AuthURL (endpoint p) <> EmptyString)
  /\ (opt opts "discovery_url" = EmptyString ->
      AuthURL (endpoint p) = opt opts "auth_code_url"
      /\ TokenURL (endpoint p) = opt opts "token_url")
  /\ (opt opts "discovery_url" <> EmptyString ->
      exists ep, oidcNewProvider (opt opts "discovery_url") = inl ep
                 /\ AuthURL (endpoint p) = AuthURL ep
                 /\ TokenURL (endpoint p) = TokenURL ep)
  /\ (opt opts "auth_style" = "in_header"
        /\ EndpointAuthStyle (endpoint p) = AuthStyleInHeader
      \/ opt opts "auth_style" = "in_params"
           /\ EndpointAuthStyle (endpoint p) = AuthStyleInParams
      \/ opt opts "auth_style" = EmptyString
           /\ EndpointAuthStyle (endpoint p) = AuthStyleAutoDetect).
Proof.
  unfold customFactory.
  destruct (negb (vsn_known v)); [discriminate |].
  destruct (customURLs oidcNewProvider opts) as [[authURL tokenURL] | e] eqn:Hu;
    [| discriminate].
  destruct (required && String.eqb authURL EmptyString) eqn:Ha; [discriminate |].
  destruct (String.eqb tokenURL EmptyString) eqn:Ht; [discriminate |].
  destruct (customAuthStyle opts) as [st | e] eqn:Hs; [| discriminate].
  intros [= <-]. simpl.
  apply String.eqb_neq in Ht.
  split; [reflexivity |]. split; [reflexivity |]. split; [exact Ht |].
  split.
  { intros ->. simpl in Ha. apply String.eqb_neq in Ha. exact Ha. }
  unfold customURLs in Hu.
  split; [| split].
  - intros Hd. rewrite Hd in Hu. simpl in Hu. injection Hu as <- <-. auto.
  - intros Hd. apply String.eqb_neq in Hd. rewrite Hd in Hu. simpl in Hu.
    destruct (oidcNewProvider (opt opts "discovery_url")) as [ep | msg];
      [| discriminate].
    injection Hu as <- <-. eauto.
  - unfold customAuthStyle in Hs.
    destruct (String.eqb (opt opts "auth_style") "in_header") eqn:H1;
      [apply String.eqb_eq in H1; injection Hs as <-; auto |].
    destruct (String.eqb (opt opts "auth_style") "in_params") eqn:H2;
      [apply String.eqb_eq in H2; injection Hs as <-; auto |].
    destruct (String.eqb (opt opts "auth_style") EmptyString) eqn:H3;
      [apply String.eqb_eq in H3; injection Hs as <-; auto | discriminate].
Qed.

(** The provider a custom factory builds: version 1, requiring
    authorization as the factory says, with a token URL that is not empty
    (and an authorization URL that is not empty when authorization is
    required).  With [discovery_url] the two URLs are the discovered ones,
    whatever [auth_code_url] and [token_url] say, and without it they are
    those two options; the authentication style is the one [auth_style]
    names, never the discovered one. *)
Theorem custom_provider (required : bool) (v : Z) (opts : gmap string string)
    (p : basic) :
  customFactory oidcNewProvider required v opts = Ok p ->
  Version p = 1 /\ IsAuthorizationRequired p = required
  /\ TokenURL (endpoint p) <> EmptyString
  /\ (required = true -> AuthURL (endpoint p) <> EmptyString)
  /\ (opt opts "discovery_url" = EmptyString ->
      AuthURL (endpoint p) = opt opts "auth_code_url"
      /\ TokenURL (endpoint p) = opt opts "token_url")
  /\ (opt opts "discovery_url" <> EmptyString ->
      exists ep, oidcNewProvider (opt opts "discovery_url") = inl ep
                 /\ AuthURL (endpoint p) = AuthURL ep
                 /\ TokenURL (endpoint p) = TokenURL ep)
  /\ (opt opts "auth_style" = "in_header"
        /\ EndpointAuthStyle (endpoint p) = AuthStyleInHeader
      \/ opt opts "auth_style" = "in_params"
           /\ EndpointAuthStyle (endpoint p) = AuthStyleInParams
      \/ opt opts "auth_style" = EmptyString
           /\ EndpointAuthStyle (endpoint p) = AuthStyleAutoDetect).
Proof. apply customFactory_built. Qed.

(** A custom factory fails in five ways only, each checked after the ones
    before it: an unknown version; a discovery that failed, whose error
    text is carried in the message; an empty authorization URL when
    authorization is required; an empty token URL; an unknown
    authentication style. *)
Theorem custom_errors (required : bool) (v : Z) (opts : gmap string string)
    (e : error) :
  customFactory oidcNewProvider required v opts = Err e ->
  (e = ErrNoProviderWithVersion /\ v <> -1 /\ v <> 1)
  \/ ((v = -1 \/ v = 1)
      /\ ((exists msg,
              e = OptionError "discovery_url" ("error making new provider: " +:+ msg)
              /\ opt opts "discovery_url" <> EmptyString
              /\ oidcNewProvider (opt opts "discovery_url") = inr msg)
          \/ exists authURL tokenURL,
               customURLs oidcNewProvider opts = Ok (authURL, tokenURL)
               /\ ((e = OptionError "auth_code_url" "authorization code URL is required"
                    /\ required = true /\ authURL = EmptyString)
                   \/ ((required = true -> authURL <> EmptyString)
                       /\ ((e = OptionError "token_url" "token URL is required"
                            /\ tokenURL = EmptyString)
                           \/ (tokenURL <> EmptyString
                               /\ e = OptionError "auth_style"
                                        ("unknown authentication style; expected one of "
                                         +:+ quoted "in_header" +:+ " or "
                                         +:+ quoted "in_params")
                               /\ opt opts "auth_style" <> "in_header"
                               /\ opt opts "auth_style" <> "in_params"
                               /\ opt opts "auth_style" <> EmptyString)))))).
Proof.
  unfold customFactory.
  destruct (vsn_known v) eqn:Hv; simpl.
  2:{ intros [= <-]. left. unfold vsn_known in Hv.
      apply orb_false_iff in Hv as [H1 H2].
      apply Z.eqb_neq in H1, H2. auto. }
  intros H. right. split.
  { unfold vsn_known in Hv. apply orb_true_iff in Hv as [Hm | Hp];
      [apply Z.eqb_eq in Hm | apply Z.eqb_eq in Hp]; auto. }
  destruct (customURLs oidcNewProvider opts) as [[authURL tokenURL] | e'] eqn:Hu.
  - right. exists authURL, tokenURL. split; [reflexivity |].
    destruct required; simpl in H.
    + destruct (String.eqb authURL EmptyString) eqn:Ha.
      * apply String.eqb_eq in Ha. injection H as <-. left. auto.
      * apply String.eqb_neq in Ha. right. split; [intros _; exact Ha |].
        destruct (String.eqb tokenURL EmptyString) eqn:Ht.
        -- apply String.eqb_eq in Ht. injection H as <-. left. auto.
        -- apply String.eqb_neq in Ht. right. split; [exact Ht |].
           unfold customAuthStyle in H.
           destruct (String.eqb (opt opts "auth_style") "in_header") eqn:H1;
             [discriminate |].
           destruct (String.eqb (opt opts "auth_style") "in_params") eqn:H2;
             [discriminate |].
           destruct (String.eqb (opt opts "auth_style") EmptyString) eqn:H3;
             [discriminate |].
           apply String.eqb_neq in H1, H2, H3. injection H as <-. auto.
    + right. split; [discriminate |].
      destruct (String.eqb tokenURL EmptyString) eqn:Ht.
      * apply String.eqb_eq in Ht. injection H as <-. left. auto.
      * apply String.eqb_neq in Ht. right. split; [exact Ht |].
        unfold customAuthStyle in H.
        destruct (String.eqb (opt opts "auth_style") "in_header") eqn:H1;
          [discriminate |].
        destruct (String.eqb (opt opts "auth_style") "in_params") eqn:H2;
          [discriminate |].
        destruct (String.eqb (opt opts "auth_style") EmptyString) eqn:H3;
          [discriminate |].
        apply String.eqb_neq in H1, H2, H3. injection H as <-. auto.
  - injection H as <-. left. unfold customURLs in Hu.
    destruct (String.eqb (opt opts "discovery_url") EmptyString) eqn:Hd;
      simpl in Hu; [discriminate |].
    apply String.eqb_neq in Hd.
    destruct (oidcNewProvider (opt opts "discovery_url")) as [ep | msg] eqn:Ho;
      [discriminate |].
    injection Hu as <-. eauto.
Qed.

(** The custom factories and the Azure AD factory read their own options
    and nothing else: two option maps that agree on those (a key that is
    absent counting as one given empty) get the same answer, so an option
    the factory does not know is ignored.  The factory of a named service
    is the other way round: it builds a provider only from the empty
    map. *)
Theorem options_read (required : bool) (AzureADEndpoint : string -> Endpoint)
    (ep : Endpoint) (v : Z) (opts opts' : gmap string string) :
  ((forall k, In k ["discovery_url"; "auth_code_url"; "token_url"; "auth_style"] ->
              opt opts k = opt opts' k) ->
   customFactory oidcNewProvider required v opts
   = customFactory oidcNewProvider required v opts')
  /\ (opt opts "tenant" = opt opts' "tenant" ->
      azureADFactory AzureADEndpoint v opts = azureADFactory AzureADEndpoint v opts')
  /\ (forall p, basicFactory ep v opts = Ok p -> opts = ∅).
Proof.
  split; [| split].
  - intros H. unfold customFactory, customURLs, customAuthStyle.
    rewrite <- (H "discovery_url"), <- (H "auth_code_url"), <- (H "token_url"),
      <- (H "auth_style") by (simpl; tauto).
    reflexivity.
  - intros H. unfold azureADFactory. rewrite H. reflexivity.
  - intros p. unfold basicFactory.
    destruct (negb (vsn_known v)); [discriminate |].
    destruct (Nat.eqb (size opts) 0) eqn:Hs; [| discriminate].
    intros _. apply Nat.eqb_eq in Hs. apply map_size_empty_iff. exact Hs.
Qed.

End Custom.

Lemma custom_provider_witness :
  exists ep, samples_more.discovery "https://idp.test" = inl ep
             /\ AuthURL (endpoint (mkBasic 1 (mkEndpoint "https://idp.test/auth"
                                                 "https://idp.test/token"
                                                 AuthStyleInHeader) true))
                = AuthURL ep
             /\ TokenURL (endpoint (mkBasic 1 (mkEndpoint "https://idp.test/auth"
                                                  "https://idp.test/token"
                                                  AuthStyleInHeader) true))
                = TokenURL ep.
Proof.
  assert (Hbuilt : customFactory samples_more.discovery true 1 samples_more.by_discovery
                   = Ok (mkBasic 1 (mkEndpoint "https://idp.test/auth"
                                      "https://idp.test/token" AuthStyleInHeader) true))
    by (vm_compute; reflexivity).
  destruct (custom_provider samples_more.discovery true 1 samples_more.by_discovery _ Hbuilt)
    as (_ & _ & _ & _ & _ & Hdisc & _).
  apply Hdisc. vm_compute. discriminate.
Defined.

Lemma custom_errors_witness :
  exists msg,
    OptionError "discovery_url" "error making new provider: no route to host"
    = OptionError "discovery_url" ("error making new provider: " +:+ msg)
    /\ samples.no_discovery (opt samples_more.by_discovery "discovery_url") = inr msg.
Proof.
  assert (Hfailed : customFactory samples.no_discovery true 1 samples_more.by_discovery
                    = Err (OptionError "discovery_url"
                             "error making new provider: no route to host"))
    by (vm_compute; reflexivity).
  destruct (custom_errors samples.no_discovery true 1 samples_more.by_discovery _ Hfailed)
    as [(Hversion & _) | (_ & [(msg & He & _ & Hmsg) | (a & t & Hurls & _)])].
  - discriminate.
  - exists msg. split; assumption.
  - vm_compute in Hurls. discriminate.
Defined.

Lemma options_read_witness :
  customFactory samples.no_discovery false 1 samples_more.by_urls
  = customFactory samples.no_discovery false 1
      (<["tenant" := "unused"]> samples_more.by_urls).
Proof.
  apply (proj1 (options_read samples.no_discovery false samples.azure samples.ep 1
                  samples_more.by_urls (<["tenant" := "unused"]> samples_more.by_urls))).
  intros k Hk. simpl in Hk.
  destruct Hk as [<- | [<- | [<- | [<- | []]]]]; vm_compute; reflexivity.
Defined.

(** From the factory to the token call of the client-credentials grant: a
    provider built by the custom factory that does not require
    authorization gives a token builder, and what that builder builds asks
    the provider's token URL with the client id, the client secret and the
    scopes given, through the client given if one was; a provider built by
    the custom factory that requires authorization gives
    [ErrAuthRequired] instead. *)
Theorem client_credentials_call (oidcNewProvider : string -> Endpoint + string)
    (v : Z) (opts : gmap string string) (p : basic)
    (clientID clientSecret : string) (scopes : list string) :
  (customFactory oidcNewProvider false v opts = Ok p ->
   exists cb,
     NewTokenConfigBuilder p clientID clientSecret = Ok cb
     /\ tcToken (tbBuild (tbWithScopes cb scopes))
        = ClientCredentialsToken None
            (mkClientCredentialsConfig clientID clientSecret (TokenURL (endpoint p))
               scopes)
     /\ (forall client,
           tcToken (tbBuild (tbWithScopes (tbWithHTTPClient cb client) scopes))
           = ClientCredentialsToken (Some client)
               (mkClientCredentialsConfig clientID clientSecret (TokenURL (endpoint p))
                  scopes))
     /\ TokenURL (endpoint p) <> EmptyString
     /\ (opt opts "discovery_url" = EmptyString ->
         TokenURL (endpoint p) = opt opts "token_url"))
  /\ (customFactory oidcNewProvider true v opts = Ok p ->
      NewTokenConfigBuilder p clientID clientSecret = Err ErrAuthRequired).
Proof.
  split; intros Hp;
    destruct (customFactory_built oidcNewProvider _ v opts p Hp)
      as (_ & Hreq & Htok & _ & Hurls & _);
    unfold NewTokenConfigBuilder; rewrite Hreq; [| reflexivity].
  eexists. split; [reflexivity |]. split; [reflexivity |].
  split; [reflexivity |]. split; [exact Htok |].
  intros Hd. apply Hurls. exact Hd.
Qed.

Lemma client_credentials_call_witness :
  exists cb,
    NewTokenConfigBuilder
      (mkBasic 1 (mkEndpoint EmptyString "https://x/token" AuthStyleAutoDetect) false)
      "id" "secret" = Ok cb
    /\ tcToken (tbBuild (tbWithScopes cb ["read"]))
       = ClientCredentialsToken None
           (mkClientCredentialsConfig "id" "secret" "https://x/token" ["read"]).
Proof.
  assert (Hbuilt : customFactory samples.no_discovery false 1 samples_more.by_urls
                   = Ok (mkBasic 1 (mkEndpoint EmptyString "https://x/token"
                                      AuthStyleAutoDetect) false))
    by (vm_compute; reflexivity).
  destruct (proj1 (client_credentials_call samples.no_discovery 1 samples_more.by_urls _
                     "id" "secret" ["read"]) Hbuilt)
    as (cb & Hcb & Hcall & _).
  exists cb. split; [exact Hcb | exact Hcall].
Defined.

Lemma acChain_config (fs : list acSetter) (cb : basicAuthCodeURLConfigBuilder) :
  acConfig (acChain fs cb)
  = mkOAuth2Config (ClientID (acConfig cb)) (ClientSecret (acConfig cb))
      (ConfigEndpoint (acConfig cb))
      (lastRedirectURL fs (RedirectURL (acConfig cb)))
      (lastScopes fs (Scopes (acConfig cb))).
Proof.
  revert cb. induction fs as [| f fs IH]; intros [[id secret ep u l]]; simpl.
  - reflexivity.
  - unfold acChain in IH. rewrite IH. destruct f; reflexivity.
Qed.

Lemma lastRedirectURL_app (fs fs' : list acSetter) (u d : string) :
  lastRedirectURL (fs ++ AcRedirectURL u :: fs')%list d = lastRedirectURL fs' u.
Proof.
  revert d. induction fs as [| f fs IH]; intros d; simpl; [reflexivity |].
  destruct f; apply IH.
Qed.

(** The configuration for the authorization URL, after any run of
    [WithRedirectURL] and [WithScopes] calls: the client id and the
    endpoint of the provider, the redirect URL and the scopes of the last
    call of each kind (none if there was no such call), and never a
    client secret. *)
Theorem auth_code_url_config (b : basic) (clientID : string) (fs : list acSetter) :
  acBuild (acChain fs (NewAuthCodeURLConfigBuilder b clientID))
  = mkOAuth2Config clientID EmptyString (endpoint b)
      (lastRedirectURL fs EmptyString) (lastScopes fs [])
  /\ ClientSecret (acBuild (acChain fs (NewAuthCodeURLConfigBuilder b clientID)))
     = EmptyString
  /\ (forall u fs',
        RedirectURL (acBuild (acChain (fs ++ AcRedirectURL u :: fs')%list
                                (NewAuthCodeURLConfigBuilder b clientID)))
        = lastRedirectURL fs' u).
Proof.
  unfold acBuild. rewrite acChain_config. simpl.
  split; [reflexivity |]. split; [reflexivity |].
  intros u fs'. rewrite acChain_config. simpl. apply lastRedirectURL_app.
Qed.

End provider_more.

(** * More on the credential handlers *)

Module backend_more.
Import oauth2 provider backend backend_spec.

(** The run of a write, by cases on what the world answers. *)
Lemma update_runs (w : world) (data : FieldData) (s : gmap string string) :
  exists r s' tr,
    run w (credsUpdateOperation data) (mkStore s false)
    = Some (r, mkStore s' false, tr)
    /\ (length (token_answers tr) <= 1)%nat
    /\ (storage_writes tr = [] \/ storage_writes tr = [credKey (Get data "name")])
    /\ (r <> (None, None) -> s' = s)
    /\ (r = (None, None) ->
        exists call tok bytes,
          token_answers tr = [(call, Ok tok)]
          /\ w_json w tok = Ok bytes
          /\ w_put w (mkStorageEntry (credKey (Get data "name")) bytes) = None
          /\ s' = <[credKey (Get data "name") := bytes]> s).
Proof.
  unfold credsUpdateOperation. generalize (credKey (Get data "name")). intros key.
  run_step. repeat run_case.
  all: eexists _, _, _; (split; [reflexivity |]).
  all: simpl; (split; [lia |]).
  all: (split; [first [left; reflexivity | right; reflexivity] |]).
  all: split; [first [reflexivity | intros Hr; exfalso; apply Hr; reflexivity] |].
  all: try (intros [=]; fail).
  all: intros _; eexists _, _, _; repeat split; eassumption.
Qed.

(** Whatever the world answers, a write makes at most one token call and
    tries at most one storage write, of the key of its name.  It changes
    the storage only when it returns [(nil, nil)], and then by putting the
    encoding of the token that the provider answered under that key; on
    every other reply the storage is as it was. *)
Theorem write_outcome (w : world) (data : FieldData) (s : gmap string string) :
  exists r s' tr,
    run w (credsUpdateOperation data) (mkStore s false)
    = Some (r, mkStore s' false, tr)
    /\ (length (token_answers tr) <= 1)%nat
    /\ (storage_writes tr = [] \/ storage_writes tr = [credKey (Get data "name")])
    /\ (r <> (None, None) -> s' = s)
    /\ (r = (None, None) ->
        exists call tok bytes,
          token_answers tr = [(call, Ok tok)]
          /\ w_json w tok = Ok bytes
          /\ w_put w (mkStorageEntry (credKey (Get data "name")) bytes) = None
          /\ s' = <[credKey (Get data "name") := bytes]> s).
Proof. apply update_runs. Qed.

(** What a write sends to the provider: only with a configuration whose
    provider requires authorization, and then either the exchange of the
    given code, with the redirect URL if one is given, or, when no code is
    given, the refresh of a token that has nothing but the given refresh
    token, with no redirect URL even if one is given.  Both carry the
    client id and secret of the configuration and the endpoint of the
    provider, no scopes and no custom HTTP client. *)
Theorem write_token_call (w : world) (data : FieldData) (st : store) :
  held st = false ->
  exists r st' tr,
    run w (credsUpdateOperation data) st = Some (r, st', tr)
    /\ forall call ans,
        (call, ans) ∈ token_answers tr ->
        exists c p,
          w_getConfig w (entries st) = Ok (Some c)
          /\ w_provider w c = Ok p
          /\ IsAuthorizationRequired p = true
          /\ ans = w_token w call
          /\ ((exists code,
                  GetOk data "code" = Some code
                  /\ GetOk data "refresh_token" = None
                  /\ call = ConfigExchange None
                              (mkOAuth2Config (cClientID c) (cClientSecret c) (endpoint p)
                                 (default EmptyString (GetOk data "redirect_url")) [])
                              code)
              \/ (exists refreshToken,
                     GetOk data "code" = None
                     /\ GetOk data "refresh_token" = Some refreshToken
                     /\ call = SourceToken
                                 (ConfigTokenSource None
                                    (mkOAuth2Config (cClientID c) (cClientSecret c)
                                       (endpoint p) EmptyString [])
                                    (mkToken EmptyString EmptyString refreshToken 0)))).
Proof.
  destruct st as [s h]. simpl. intros ->.
  unfold credsUpdateOperation. generalize (credKey (Get data "name")). intros key.
  run_step.
  destruct (w_getConfig w s) as [[c |] | e] eqn:Hc; run_step;
    [| eexists _, _, _; (split; [reflexivity |]);
       intros call ans Hin; apply elem_of_nil in Hin; contradiction ..].
  destruct (w_provider w c) as [p | e] eqn:Hp; run_step;
    [| eexists _, _, _; (split; [reflexivity |]);
       intros call ans Hin; apply elem_of_nil in Hin; contradiction].
  destruct (IsAuthorizationRequired p) eqn:Hreq; run_step;
    [| eexists _, _, _; (split; [reflexivity |]);
       intros call ans Hin; apply elem_of_nil in Hin; contradiction].
  destruct (GetOk data "code") as [code |] eqn:Hcode;
    destruct (GetOk data "refresh_token") as [rt |] eqn:Hrt; run_step;
    try (eexists _, _, _; (split; [reflexivity |]);
         intros call ans Hin; apply elem_of_nil in Hin; contradiction).
  - destruct (GetOk data "redirect_url") as [u |] eqn:Hu; run_step;
      repeat run_case;
      (eexists _, _, _; (split; [reflexivity |]));
      intros call ans Hin; simpl in Hin;
      apply list_elem_of_singleton in Hin; injection Hin as -> ->;
      exists c, p; repeat (split; [first [assumption | reflexivity | congruence] |]);
      left; exists code; repeat split.
  - repeat run_case;
      (eexists _, _, _; (split; [reflexivity |]));
      intros call ans Hin; simpl in Hin;
      apply list_elem_of_singleton in Hin; injection Hin as -> ->;
      exists c, p; repeat (split; [first [assumption | reflexivity | congruence] |]);
      right; exists rt; repeat split.
Qed.

Lemma write_token_call_witness :
  exists r st' tr,
    run samples.healthy (credsUpdateOperation samples_more.with_redirect)
      samples.empty_store = Some (r, st', tr).
Proof.
  destruct (write_token_call samples.healthy samples_more.with_redirect
              samples.empty_store eq_refl)
    as (r & st' & tr & Hrun & _).
  exists r, st', tr. exact Hrun.
Defined.

Example write_sends_redirect :
  exists r st' tr,
    run samples.healthy (credsUpdateOperation samples_more.with_redirect)
      samples.empty_store = Some (r, st', tr)
    /\ token_answers tr
       = [(ConfigExchange None
             (mkOAuth2Config "client-id" "client-secret" samples.ep "https://app/cb" [])
             "X",
           Ok samples.fresh)].
Proof. eexists _, _, _. split; vm_compute; reflexivity. Qed.

(** Any write that goes through, by a code or by a refresh token, stores
    the encoding of the token the provider answered under the key of its
    name, where it can be read back, and leaves every other key as it was;
    a delete of the same name after it takes the record away again, so
    that a storage that had no record for the name is as it was before the
    write.  The write returns on every input. *)
Theorem write_then_delete (w : world) (data data' : FieldData)
    (s : gmap string string) :
  Get data' "name" = Get data "name" ->
  exists r s1 tr1,
    run w (credsUpdateOperation data) (mkStore s false)
    = Some (r, mkStore s1 false, tr1)
    /\ (r = (None, None) ->
        (exists call tok bytes,
            token_answers tr1 = [(call, Ok tok)]
            /\ w_json w tok = Ok bytes
            /\ s1 !! credKey (Get data "name") = Some bytes)
        /\ (forall k, k <> credKey (Get data "name") -> s1 !! k = s !! k)
        /\ (w_delete w (credKey (Get data "name")) = None ->
            exists tr2,
              run w (credsDeleteOperation data') (mkStore s1 false)
              = Some ((None, None),
                      mkStore (delete (credKey (Get data "name")) s) false, tr2))
        /\ (s !! credKey (Get data "name") = None ->
            delete (credKey (Get data "name")) s = s)).
Proof.
  intros Hname.
  destruct (update_runs w data s) as (r & s1 & tr1 & Hrun & _ & _ & _ & Hput).
  exists r, s1, tr1. split; [exact Hrun |].
  intros Hr. destruct (Hput Hr) as (call & tok & bytes & Hans & Hjson & _ & ->).
  split; [| split; [| split]].
  - exists call, tok, bytes.
    split; [exact Hans |]. split; [exact Hjson | apply lookup_insert_eq].
  - intros k Hk. apply lookup_insert_ne. congruence.
  - intros Hdel. rewrite delete_runs, Hname, Hdel, delete_insert_eq. eauto.
  - apply delete_id.
Qed.

(** Of two writes under the same name, one after the other and each by a
    code or by a refresh token: when the second goes through, the storage
    after both is the storage before them with the encoding of the second
    token under the key, whatever the first write did and whatever token
    it stored; when the second does not go through, the storage is as the
    first write left it.  Both writes return on every input. *)
Theorem write_overwrites (w : world) (data1 data2 : FieldData)
    (s : gmap string string) :
  Get data2 "name" = Get data1 "name" ->
  exists r1 s1 tr1 r2 s2 tr2,
    run w (credsUpdateOperation data1) (mkStore s false)
    = Some (r1, mkStore s1 false, tr1)
    /\ run w (credsUpdateOperation data2) (mkStore s1 false)
       = Some (r2, mkStore s2 false, tr2)
    /\ (r2 = (None, None) ->
        exists call tok bytes,
          token_answers tr2 = [(call, Ok tok)]
          /\ w_json w tok = Ok bytes
          /\ s2 = <[credKey (Get data1 "name") := bytes]> s)
    /\ (r2 <> (None, None) -> s2 = s1).
Proof.
  intros Hname.
  destruct (update_runs w data1 s) as (r1 & s1 & tr1 & Hrun1 & _ & _ & Hsame1 & Hput1).
  destruct (update_runs w data2 s1) as (r2 & s2 & tr2 & Hrun2 & _ & _ & Hsame2 & Hput2).
  exists r1, s1, tr1, r2, s2, tr2.
  split; [exact Hrun1 |]. split; [exact Hrun2 |]. split; [| exact Hsame2].
  intros Hr2. destruct (Hput2 Hr2) as (call & tok & bytes & Hans & Hjson & _ & ->).
  exists call, tok, bytes. split; [exact Hans |]. split; [exact Hjson |].
  rewrite Hname.
  destruct r1 as [[resp |] [e |]];
    try (rewrite Hsame1 by discriminate; reflexivity).
  destruct (Hput1 eq_refl) as (call1 & tok1 & bytes1 & _ & _ & _ & ->).
  apply insert_insert_eq.
Qed.

Lemma write_then_delete_witness :
  exists s1 tr1 tr2,
    run samples.healthy (credsUpdateOperation samples.with_refresh_token)
      (mkStore ∅ false)
    = Some ((None, None), mkStore s1 false, tr1)
    /\ s1 !! credKey (Get samples.with_refresh_token "name") = Some "new-token"
    /\ run samples.healthy (credsDeleteOperation samples.name_only) (mkStore s1 false)
       = Some ((None, None),
               mkStore (delete (credKey (Get samples.with_refresh_token "name")) ∅)
                 false, tr2).
Proof.
  assert (Hname : Get samples.name_only "name" = Get samples.with_refresh_token "name")
    by (vm_compute; reflexivity).
  destruct (write_then_delete samples.healthy samples.with_refresh_token
              samples.name_only ∅ Hname)
    as (r & s1 & tr1 & Hrun & Hthrough).
  assert (Hr : r = (None, None)).
  { revert Hrun. vm_compute. intros [= <- _ _]. reflexivity. }
  subst r.
  destruct (Hthrough eq_refl)
    as ((call & tok & bytes & Hans & Hjson & Hread) & _ & Hdelete & _).
  destruct (Hdelete eq_refl) as [tr2 Hrun2].
  exists s1, tr1, tr2. split; [exact Hrun |]. split; [| exact Hrun2].
  rewrite Hread. f_equal.
  revert Hrun Hans Hjson. vm_compute. intros [= _ <-] [= _ <-] [= <-]. reflexivity.
Defined.

Lemma write_overwrites_witness :
  exists s1 tr1 s2 tr2 bytes,
    run samples.healthy (credsUpdateOperation samples.with_code) (mkStore ∅ false)
    = Some ((None, None), mkStore s1 false, tr1)
    /\ run samples.healthy (credsUpdateOperation samples.with_refresh_token)
         (mkStore s1 false)
       = Some ((None, None), mkStore s2 false, tr2)
    /\ s2 = <[credKey (Get samples.with_code "name") := bytes]> ∅.
Proof.
  assert (Hname : Get samples.with_refresh_token "name" = Get samples.with_code "name")
    by (vm_compute; reflexivity).
  destruct (write_overwrites samples.healthy samples.with_code
              samples.with_refresh_token ∅ Hname)
    as (r1 & s1 & tr1 & r2 & s2 & tr2 & Hrun1 & Hrun2 & Hthrough & _).
  assert (Hr1 : r1 = (None, None)).
  { revert Hrun1. vm_compute. intros [= <- _ _]. reflexivity. }
  subst r1.
  assert (Hr2 : r2 = (None, None)).
  { generalize Hrun2. unfold credsUpdateOperation, samples.healthy, samples.world_of.
    generalize (credKey (Get samples.with_refresh_token "name")). intros key.
    vm_compute. intros [= <- _ _]. reflexivity. }
  subst r2.
  destruct (Hthrough eq_refl) as (call & tok & bytes & _ & _ & Hs2).
  exists s1, tr1, s2, tr2, bytes.
  split; [exact Hrun1 |]. split; [exact Hrun2 | exact Hs2].
Defined.

Lemma hex_lower (l : list ascii) :
  forallb runs.lower_hex (list_ascii_of_string (hex l)) = true.
Proof.
  induction l as [| a l IH]; [reflexivity |].
  simpl. rewrite IH.
  destruct a as [[] [] [] [] [] [] [] []]; reflexivity.
Qed.

Lemma list_ascii_length (s : string) :
  length (list_ascii_of_string s) = String.length s.
Proof. induction s as [| a s IH]; simpl; [reflexivity | rewrite IH; reflexivity]. Qed.

(** Whatever bytes a name has, its storage key is [creds/], four
    hexadecimal digits, a slash, four more, a slash, and thirty-two more:
    nothing of the name itself, and no character other than [0-9a-f] and
    the two slashes, gets into the path. *)
Theorem credKey_alphabet (name : string) :
  exists a b c : list ascii,
    credKey name
    = credsPathPrefix +:+ string_of_list_ascii (a ++ "/"%char :: b ++ "/"%char :: c)%list
    /\ length a = 4%nat /\ length b = 4%nat /\ length c = 32%nat
    /\ forallb runs.lower_hex (a ++ b ++ c)%list = true.
Proof.
  pose proof (Sum_length (bytes_of_string name)) as L.
  exists (list_ascii_of_string (hex (take 2 (sha1.Sum (bytes_of_string name))))),
         (list_ascii_of_string
            (hex (take 2 (drop 2 (sha1.Sum (bytes_of_string name)))))),
         (list_ascii_of_string (hex (drop 4 (sha1.Sum (bytes_of_string name))))).
  split.
  - unfold credKey. f_equal.
    rewrite <- (string_of_list_ascii_of_string (_ +:+ _)). f_equal.
    rewrite route_spec.list_ascii_append. f_equal.
    change ("/" +:+ ?x) with (String "/" x).
    simpl. f_equal.
    rewrite route_spec.list_ascii_append. f_equal.
  - rewrite !list_ascii_length, !hex_length, !length_take, !length_drop, L.
    repeat (split; [reflexivity |]).
    rewrite !forallb_app, !hex_lower. reflexivity.
Qed.

(** A write or a delete for one name leaves the record of every name with
    another SHA-1 digest as it was, whatever the world answers. *)
Theorem names_apart (w : world) (data : FieldData) (s : gmap string string)
    (n : string) :
  sha1.Sum (bytes_of_string n) <> sha1.Sum (bytes_of_string (Get data "name")) ->
  (exists r s' tr,
      run w (credsUpdateOperation data) (mkStore s false)
      = Some (r, mkStore s' false, tr)
      /\ s' !! credKey n = s !! credKey n)
  /\ (exists r s' tr,
        run w (credsDeleteOperation data) (mkStore s false)
        = Some (r, mkStore s' false, tr)
        /\ s' !! credKey n = s !! credKey n).
Proof.
  intros Hne.
  assert (Hkey : credKey (Get data "name") <> credKey n).
  { intros Heq. apply Hne. symmetry. apply credKey_inj. exact Heq. }
  split.
  - destruct (update_runs w data s) as (r & s' & tr & Hrun & _ & _ & Hsame & Hput).
    exists r, s', tr. split; [exact Hrun |].
    destruct r as [[resp |] [e |]];
      try (rewrite Hsame by discriminate; reflexivity).
    destruct (Hput eq_refl) as (call & tok & bytes & _ & _ & _ & ->).
    apply lookup_insert_ne. exact Hkey.
  - rewrite delete_runs. eexists _, _, _. split; [reflexivity |].
    destruct (w_delete w (credKey (Get data "name"))); [reflexivity |].
    apply lookup_delete_ne. exact Hkey.
Qed.

Lemma names_apart_witness :
  exists r s' tr,
    run samples.healthy (credsUpdateOperation samples.with_code) (mkStore ∅ false)
    = Some (r, mkStore s' false, tr)
    /\ s' !! credKey "b" = (∅ : gmap string string) !! credKey "b".
Proof.
  apply (proj1 (names_apart samples.healthy samples.with_code ∅ "b"
                  ltac:(vm_compute; discriminate))).
Defined.

(** A read asks [getRefreshToken] once, for the key of its name, with no
    scopes (the schema of the path declares no [scopes] field, so scopes in
    the request are not seen) and without forcing; it takes no mutex, makes
    no token call and writes no storage of its own.  An error comes before
    the token: [ErrNotConfigured] and [ErrInvalidCredentials] become error
    responses, any other error is returned as it is, and no error with no
    token is [(nil, nil)]. *)
Theorem read_outcomes (w : world) (data : FieldData) (st : store) :
  exists r tr,
    run w (credsReadOperation data) st
    = Some (r,
            mkStore (w_getRefreshToken w (entries st) (credKey (Get data "name"))
                       None false).2 (held st),
            tr)
    /\ (exists tl,
          tr = Ev (GetRefreshToken (credKey (Get data "name")) None false)
                  (w_getRefreshToken w (entries st) (credKey (Get data "name"))
                     None false).1 :: tl
          /\ (tl = [] \/ tl = [Ev TimeNow (w_now w)]))
    /\ (forall tok,
          (w_getRefreshToken w (entries st) (credKey (Get data "name")) None false).1
          = (tok, Some ErrNotConfigured) ->
          r = (Some (ErrorResponse "not configured"), None))
    /\ (forall tok,
          (w_getRefreshToken w (entries st) (credKey (Get data "name")) None false).1
          = (tok, Some ErrInvalidCredentials) ->
          r = (Some (ErrorResponse "invalid client credentials"), None))
    /\ (forall tok e,
          (w_getRefreshToken w (entries st) (credKey (Get data "name")) None false).1
          = (tok, Some e) ->
          e <> ErrNotConfigured -> e <> ErrInvalidCredentials ->
          r = (None, Some e))
    /\ ((w_getRefreshToken w (entries st) (credKey (Get data "name")) None false).1
        = (None, None) ->
        r = (None, None)).
Proof.
  unfold credsReadOperation. rewrite scopes_not_declared.
  generalize (credKey (Get data "name")). intros key. run_step.
  destruct (w_getRefreshToken w (entries st) key None false) as [[tok err] s'].
  simpl.
  destruct tok as [tok |]; (destruct err as [err |]; [destruct err |]); run_step;
    try destruct (Valid (w_now w) tok); run_step;
    eexists _, _; (split; [reflexivity |]);
    (split; [eexists; split; [reflexivity | auto] |]);
    repeat split; intros; congruence.
Qed.

Lemma read_outcomes_witness :
  exists r tr,
    run (samples.world_of (Ok None) (Ok samples.two_legged) (Ok samples.fresh)
           (None, Some ErrNotConfigured) 0)
        (credsReadOperation samples_more.with_scopes) samples.empty_store
    = Some (r, samples.empty_store, tr)
    /\ r = (Some (ErrorResponse "not configured"), None).
Proof.
  destruct (read_outcomes
              (samples.world_of (Ok None) (Ok samples.two_legged) (Ok samples.fresh)
                 (None, Some ErrNotConfigured) 0)
              samples_more.with_scopes samples.empty_store)
    as (r & tr & Hrun & _ & Hnot & _).
  exists r, tr. split; [exact Hrun | exact (Hnot None eq_refl)].
Defined.

(** When [getRefreshToken] hands back a token with no error, the read
    answers with the token exactly when the access token is not empty and
    the expiry is zero (no expiry) or at least ten seconds away; the
    response then has the access token, the type and, unless the expiry is
    zero, the expiry time, and no other field: not the refresh token.
    Otherwise, so also for an empty access token that has not expired, it
    answers with the error response [token expired]. *)
Theorem read_token (w : world) (data : FieldData) (st : store) (tok : Token)
    (s' : gmap string string) :
  w_getRefreshToken w (entries st) (credKey (Get data "name")) None false
  = ((Some tok, None), s') ->
  (AccessToken tok <> EmptyString
   /\ (Expiry tok = 0 \/ w_now w <= Expiry tok - 10000000000) ->
   exists resp tr,
     run w (credsReadOperation data) st
     = Some ((Some resp, None), mkStore s' (held st), tr)
     /\ Data resp !! "access_token" = Some (VString (AccessToken tok))
     /\ Data resp !! "type" = Some (VString (Type_ tok))
     /\ Data resp !! "expire_time"
        = (if Z.eqb (Expiry tok) 0 then None else Some (VTime (Expiry tok)))
     /\ (forall k, k <> "access_token" -> k <> "type" -> k <> "expire_time" ->
                   Data resp !! k = None))
  /\ (AccessToken tok = EmptyString
      \/ (Expiry tok <> 0 /\ Expiry tok - 10000000000 < w_now w) ->
      exists tr,
        run w (credsReadOperation data) st
        = Some ((Some (ErrorResponse "token expired"), None), mkStore s' (held st), tr)).
Proof.
  intros Hgot.
  unfold credsReadOperation. rewrite scopes_not_declared.
  generalize dependent (credKey (Get data "name")). intros key Hgot. run_step.
  rewrite Hgot. run_step. split.
  - intros [Hacc Hexp].
    assert (Hvalid : Valid (w_now w) tok = true).
    { unfold Valid, expired, IsZero, expiryDelta.
      apply String.eqb_neq in Hacc. rewrite Hacc. simpl.
      destruct (Z.eqb_spec (Expiry tok) 0) as [Hz | Hz]; [reflexivity |].
      destruct Hexp as [Hexp | Hexp]; [contradiction |].
      apply negb_true_iff, Z.ltb_ge. lia. }
    rewrite Hvalid. run_step. unfold IsZero.
    eexists _, _. split; [reflexivity |]. simpl.
    destruct (Z.eqb (Expiry tok) 0); simpl.
    + rewrite lookup_insert_ne by discriminate. rewrite lookup_singleton_eq.
      rewrite lookup_insert_eq.
      split; [reflexivity |]. split; [reflexivity |].
      split.
      * rewrite lookup_insert_ne by discriminate. apply lookup_singleton_ne. discriminate.
      * intros k H1 H2 H3. rewrite lookup_insert_ne by congruence.
        apply lookup_singleton_ne. congruence.
    + rewrite lookup_insert_ne by discriminate.
      rewrite lookup_insert_ne by discriminate. rewrite lookup_singleton_eq.
      rewrite lookup_insert_ne by discriminate. rewrite lookup_insert_eq.
      rewrite lookup_insert_eq.
      split; [reflexivity |]. split; [reflexivity |]. split; [reflexivity |].
      intros k H1 H2 H3. rewrite lookup_insert_ne by congruence.
      rewrite lookup_insert_ne by congruence.
      apply lookup_singleton_ne. congruence.
  - intros Hbad.
    assert (Hvalid : Valid (w_now w) tok = false).
    { unfold Valid, expired, IsZero, expiryDelta.
      destruct Hbad as [-> | [Hz Hexp]]; [reflexivity |].
      apply andb_false_iff. right. apply negb_false_iff.
      apply Z.eqb_neq in Hz. rewrite Hz. apply Z.ltb_lt. lia. }
    rewrite Hvalid. run_step. eauto.
Qed.

Lemma read_token_witness :
  exists resp tr,
    run (samples.world_of (Ok (Some samples.cfg)) (Ok samples.three_legged)
           (Ok samples.fresh) (Some samples.fresh, None) 77)
        (credsReadOperation samples.name_only) samples.empty_store
    = Some ((Some resp, None), samples.empty_store, tr)
    /\ Data resp !! "access_token" = Some (VString "new-token")
    /\ Data resp !! "refresh_token" = None.
Proof.
  destruct (proj1 (read_token
                     (samples.world_of (Ok (Some samples.cfg)) (Ok samples.three_legged)
                        (Ok samples.fresh) (Some samples.fresh, None) 77)
                     samples.name_only samples.empty_store samples.fresh ∅ eq_refl)
              ltac:(split; [discriminate | left; reflexivity]))
    as (resp & tr & Hrun & Hacc & _ & _ & Hrest).
  exists resp, tr. split; [exact Hrun |]. split; [exact Hacc |].
  apply Hrest; discriminate.
Defined.

(** The providers that the factories of the named services and of Azure AD
    build do not require authorization: a write under such a provider is
    refused before any token call, and [NewTokenConfigBuilder] gives a
    client-credentials builder for it. *)
Theorem named_provider_writes (w : world) (data : FieldData) (st : store)
    (c : config) (ep : Endpoint) (az : string -> Endpoint) (v : Z)
    (opts : gmap string string) (p : basic) (clientID clientSecret : string) :
  w_getConfig w (entries st) = Ok (Some c) ->
  w_provider w c = Ok p ->
  basicFactory ep v opts = Ok p \/ azureADFactory az v opts = Ok p ->
  (exists tr,
      run w (credsUpdateOperation data) st
      = Some ((Some (ErrorResponse notSupported), None), st, tr)
      /\ token_answers tr = [] /\ storage_writes tr = [])
  /\ exists cb, NewTokenConfigBuilder p clientID clientSecret = Ok cb.
Proof.
  intros Hc Hp Hbuilt.
  pose proof (provider_spec.named_providers_not_required ep az v opts p Hbuilt) as Hreq.
  split.
  - unfold credsUpdateOperation. run_step. rewrite Hc. run_step. rewrite Hp. run_step.
    rewrite Hreq. simpl. destruct st. eexists. split; [reflexivity |]. split; reflexivity.
  - unfold NewTokenConfigBuilder. rewrite Hreq. eauto.
Qed.

Lemma named_provider_writes_witness :
  exists tr,
    run (samples.world_of (Ok (Some samples.cfg)) (basicFactory samples.ep 1 ∅)
           (Ok samples.fresh) (None, None) 0)
        (credsUpdateOperation samples.with_code) samples.empty_store
    = Some ((Some (ErrorResponse notSupported), None), samples.empty_store, tr)
    /\ token_answers tr = [] /\ storage_writes tr = [].
Proof.
  assert (Hp : basicFactory samples.ep 1 ∅ = Ok (mkBasic 1 samples.ep false))
    by (vm_compute; reflexivity).
  exact (proj1 (named_provider_writes
                  (samples.world_of (Ok (Some samples.cfg)) (basicFactory samples.ep 1 ∅)
                     (Ok samples.fresh) (None, None) 0)
                  samples.with_code samples.empty_store samples.cfg samples.ep
                  samples.azure 1 ∅ (mkBasic 1 samples.ep false) "id" "secret"
                  eq_refl Hp (or_introl Hp))).
Defined.

End backend_more.

(** * More on handlers side by side *)

Module mutex_more.
Import oauth2 provider backend runs mutex_spec.

Section Steps.

Variable w : world.

Lemma thread_step_owner (i : nat) (t t' : thread) (s s' : gmap string string)
    (o o' : option nat) :
  thread_step w i t s o = Some (t', s', o') -> o' = o \/ o' = Some i \/ o' = None.
Proof.
  destruct t as [[r | X c k] | call k]; simpl; [discriminate | | intros [= _ _ <-]; auto].
  destruct c; simpl;
    try (destruct (perform w _ s) as [x s1] eqn:Hp; simpl in Hp);
    try (intros [= _ _ <-]; auto; fail).
  - destruct o; [discriminate | intros [= _ _ <-]; auto].
  - destruct (bool_decide (o = Some i)); [intros [= _ _ <-]; auto | discriminate].
  - destruct (w_put w entry); intros [= _ _ <-]; auto.
  - destruct (w_delete w key); intros [= _ _ <-]; auto.
  - destruct (w_getRefreshToken w s key scopes force). intros [= _ _ <-]. auto.
Qed.

(** The owner of the mutex is one of the goroutines. *)
Lemma owner_step (i : nat) (g g' : pool) :
  (forall j, owner g = Some j -> is_Some (threads g !! j)) ->
  pool_step w i g = Some g' ->
  forall j, owner g' = Some j -> is_Some (threads g' !! j).
Proof.
  intros Hvalid. unfold pool_step.
  destruct (threads g !! i) as [t |] eqn:Ht; [| discriminate].
  destruct (thread_step w i t (shared g) (owner g)) as [[[t' s'] o'] |] eqn:Hs;
    [| discriminate].
  intros [= <-] j. simpl. intros Ho.
  apply lookup_lt_is_Some. rewrite length_insert.
  destruct (thread_step_owner i t t' _ _ _ _ Hs) as [Hsame | [Hme | Hfree]].
  - apply lookup_lt_is_Some, Hvalid. congruence.
  - assert (j = i) by congruence. subst j. eapply lookup_lt_Some. exact Ht.
  - congruence.
Qed.

Lemma owner_schedule (sched : list nat) (g g' : pool) :
  (forall j, owner g = Some j -> is_Some (threads g !! j)) ->
  run_schedule w sched g = Some g' ->
  forall j, owner g' = Some j -> is_Some (threads g' !! j).
Proof.
  revert g. induction sched as [| i sched IH]; simpl; intros g Hvalid.
  - intros [= <-]. exact Hvalid.
  - destruct (pool_step w i g) as [g1 |] eqn:Hstep; [| discriminate].
    apply IH. eapply owner_step; eassumption.
Qed.

Lemma unfinished (ts : list thread) :
  forallb finished ts = false -> exists i t, ts !! i = Some t /\ finished t = false.
Proof.
  induction ts as [| t ts IH]; simpl; [discriminate |].
  destruct (finished t) eqn:Hf; simpl.
  - intros H. destruct (IH H) as (i & t' & Hi & Ht'). exists (S i), t'. auto.
  - intros _. exists 0%nat, t. auto.
Qed.

(** A disciplined goroutine that holds the mutex, or that finds it free,
    can move, unless it has returned. *)
Lemma can_move (allowed : bool -> forall X, cmd X -> bool) (i : nat) (t : thread)
    (s : gmap string string) (o : option nat) :
  thread_ok allowed (bool_decide (o = Some i)) t ->
  o = Some i \/ o = None ->
  finished t = false ->
  exists r, thread_step w i t s o = Some r.
Proof.
  intros Hok Ho Hf.
  destruct t as [[r | X c k] | call k]; simpl in *; [discriminate | | eauto].
  destruct c; simpl in *;
    try (destruct (perform w _ s) as [x s1] eqn:Hp; simpl in Hp);
    try (eexists; reflexivity).
  - destruct Hok as [Hh _]. apply bool_decide_eq_false_1 in Hh.
    destruct Ho as [-> | ->]; [contradiction | eauto].
  - destruct Hok as [Hh _]. rewrite Hh. eauto.
  - destruct (w_put w entry); eauto.
  - destruct (w_delete w key); eauto.
  - destruct (w_getRefreshToken w s key scopes force). eauto.
Qed.

Lemma progress (allowed : bool -> forall X, cmd X -> bool) (g : pool) :
  pool_ok allowed g ->
  (forall j, owner g = Some j -> is_Some (threads g !! j)) ->
  (forallb finished (threads g) = true /\ owner g = None)
  \/ exists i g', pool_step w i g = Some g'.
Proof.
  intros Hok Hvalid. destruct (owner g) as [i |] eqn:Ho.
  - right. destruct (Hvalid i eq_refl) as [t Ht].
    pose proof (Hok i t Ht) as Hti. rewrite Ho in Hti.
    assert (Hf : finished t = false).
    { destruct t as [[r | X c k] | call k]; try reflexivity.
      simpl in Hti. rewrite bool_decide_eq_true_2 in Hti by reflexivity. discriminate. }
    destruct (can_move allowed i t (shared g) (Some i) Hti (or_introl eq_refl) Hf)
      as [[[t' s'] o'] Hstep].
    exists i. unfold pool_step. rewrite Ht, Ho, Hstep. eauto.
  - destruct (forallb finished (threads g)) eqn:Hall; [left; auto | right].
    destruct (unfinished _ Hall) as (i & t & Ht & Hf).
    pose proof (Hok i t Ht) as Hti. rewrite Ho in Hti.
    destruct (can_move allowed i t (shared g) None Hti (or_intror eq_refl) Hf)
      as [[[t' s'] o'] Hstep].
    exists i. unfold pool_step. rewrite Ht, Ho, Hstep. eauto.
Qed.

End Steps.

(** No deadlock: however writes and deletes have been scheduled so far,
    either every one of them has returned and the mutex is free, or some
    goroutine can move. *)
Theorem no_deadlock (w : world) (reqs : list (Operation * FieldData))
    (s : gmap string string) (sched : list nat) (g : pool) :
  Forall (fun r => fst r <> ReadOperation) reqs ->
  run_schedule w sched (start reqs s) = Some g ->
  (forallb finished (threads g) = true /\ owner g = None)
  \/ exists i g', pool_step w i g = Some g'.
Proof.
  intros Hreqs Hrun. apply (progress w calls_unlocked).
  - eapply run_schedule_ok; [apply start_ok; exact Hreqs | exact Hrun].
  - eapply owner_schedule; [| exact Hrun]. simpl. discriminate.
Qed.

Lemma no_deadlock_witness :
  exists i g',
    pool_step samples.healthy i
      (mkPool [Active (credsUpdateOperation samples.with_code);
               Active (credsDeleteOperation samples.name_only)] ∅ None)
    = Some g'.
Proof.
  assert (Hreqs : Forall (fun r => fst r <> ReadOperation) samples.write_and_delete)
    by (repeat constructor; discriminate).
  destruct (no_deadlock samples.healthy samples.write_and_delete ∅ [] _ Hreqs eq_refl)
    as [[Hdone _] | Hmove].
  - vm_compute in Hdone. discriminate.
  - exact Hmove.
Defined.

(** ** How long a handler runs *)

Lemma update_within (data : FieldData) : steps_within 8 (credsUpdateOperation data).
Proof.
  unfold credsUpdateOperation, storeToken, locked, call, mbind, prog_bind, mret,
    prog_ret.
  simpl. split; [unfold moves; simpl; lia |].
  intros [[c |] | err]; simpl; [| exact I | exact I].
  split; [unfold moves; simpl; lia |].
  intros [p | err]; simpl; [| exact I].
  destruct (negb (IsAuthorizationRequired p)); simpl; [exact I |].
  destruct (GetOk data "code") as [code |];
    destruct (GetOk data "refresh_token") as [rt |]; simpl; try exact I.
  all: split; [unfold moves; simpl; lia |].
  all: intros [tok | err]; simpl.
  all: try (destruct err; simpl; try exact I;
            split; [unfold moves; simpl; lia |]; intros _; exact I).
  all: split; [unfold moves; simpl; lia |]; intros _.
  all: split; [unfold moves; simpl; lia |].
  all: intros [entry | err]; simpl.
  all: try (split; [unfold moves; simpl; lia |]; intros _; exact I).
  all: split; [unfold moves; simpl; lia |].
  all: intros [err |]; simpl; (split; [unfold moves; simpl; lia |]); intros _; exact I.
Qed.

Lemma delete_within (data : FieldData) : steps_within 3 (credsDeleteOperation data).
Proof.
  unfold credsDeleteOperation, locked, call, mbind, prog_bind, mret, prog_ret.
  simpl. split; [unfold moves; simpl; lia |]. intros _.
  split; [unfold moves; simpl; lia |].
  intros [err |]; simpl; (split; [unfold moves; simpl; lia |]); intros _; exact I.
Qed.

Lemma read_within (data : FieldData) : steps_within 2 (credsReadOperation data).
Proof.
  unfold credsReadOperation, call, mbind, prog_bind, mret, prog_ret.
  destruct (GetOkSlice data "scopes"); simpl.
  all: split; [unfold moves; simpl; lia |].
  all: intros [[tok |] [err |]]; simpl; try exact I.
  all: try (destruct err; exact I).
  all: split; [unfold moves; simpl; lia |].
  all: intros now; destruct (negb (Valid now tok)); exact I.
Qed.

Lemma start_within (reqs : list (Operation * FieldData)) (s : gmap string string) :
  Forall2 thread_within ((fun r => budget (fst r)) <$> reqs) (threads (start reqs s)).
Proof.
  unfold start. simpl. induction reqs as [| [op data] reqs IH]; simpl.
  - constructor.
  - constructor; [| exact IH]. simpl.
    destruct op; [apply read_within | apply update_within | apply delete_within].
Qed.

Lemma sum_list_decrement (ns : list nat) (i n : nat) :
  ns !! i = Some n -> (1 <= n)%nat ->
  (sum_list (<[i := (n - 1)%nat]> ns) + 1 = sum_list ns)%nat.
Proof.
  revert i. induction ns as [| m ns IH]; intros [| i]; simpl; try discriminate.
  - intros [= ->] Hn. lia.
  - intros Hi Hn. specialize (IH i Hi Hn). lia.
Qed.

Section Bounds.

Variable w : world.

(** A move uses up one of the moves the goroutine is given. *)
Lemma thread_step_within (i n : nat) (t t' : thread) (s s' : gmap string string)
    (o o' : option nat) :
  thread_within n t ->
  thread_step w i t s o = Some (t', s', o') ->
  (1 <= n)%nat /\ thread_within (n - 1) t'.
Proof.
  destruct t as [[r | X c k] | call k]; simpl.
  - discriminate.
  - destruct c; unfold moves; simpl;
      try (destruct (perform w _ s) as [x s1] eqn:Hp; simpl in Hp);
      intros [Hn Hk].
    + destruct o; [discriminate |]. intros [= <- _ _]. split; [lia | apply Hk].
    + destruct (bool_decide (o = Some i)); [| discriminate].
      intros [= <- _ _]. split; [lia | apply Hk].
    + intros [= <- _ _]. split; [lia | apply Hk].
    + intros [= <- _ _]. split; [lia | apply Hk].
    + intros [= <- _ _]. split; [lia |]. simpl. split; [lia |].
      intros r. replace (n - 1 - 1)%nat with (n - 2)%nat by lia. apply Hk.
    + intros [= <- _ _]. split; [lia | apply Hk].
    + intros [= <- _ _]. split; [lia | apply Hk].
    + destruct (w_put w entry); intros [= <- _ _]; (split; [lia | apply Hk]).
    + destruct (w_delete w key); intros [= <- _ _]; (split; [lia | apply Hk]).
    + destruct (w_getRefreshToken w s key scopes force).
      intros [= <- _ _]. split; [lia | apply Hk].
    + intros [= <- _ _]. split; [lia | apply Hk].
  - intros [Hn Hk] [= <- _ _]. split; [exact Hn | apply Hk].
Qed.

Lemma pool_step_within (i : nat) (g g' : pool) (ns : list nat) :
  Forall2 thread_within ns (threads g) ->
  pool_step w i g = Some g' ->
  exists ns', Forall2 thread_within ns' (threads g')
              /\ (sum_list ns' + 1 = sum_list ns)%nat.
Proof.
  intros Hns. unfold pool_step.
  destruct (threads g !! i) as [t |] eqn:Ht; [| discriminate].
  destruct (thread_step w i t (shared g) (owner g)) as [[[t' s'] o'] |] eqn:Hs;
    [| discriminate].
  intros [= <-]. simpl.
  destruct (Forall2_lookup_r _ _ _ _ _ Hns Ht) as (n & Hn & Hwithin).
  destruct (thread_step_within i n t t' _ _ _ _ Hwithin Hs) as [Hpos Hwithin'].
  exists (<[i := (n - 1)%nat]> ns). split.
  - apply Forall2_insert; assumption.
  - apply sum_list_decrement; assumption.
Qed.

Lemma schedule_within (sched : list nat) (g g' : pool) (ns : list nat) :
  Forall2 thread_within ns (threads g) ->
  run_schedule w sched g = Some g' ->
  (length sched <= sum_list ns)%nat.
Proof.
  revert g ns. induction sched as [| i sched IH]; simpl; intros g ns Hns; [lia |].
  destruct (pool_step w i g) as [g1 |] eqn:Hstep; [| discriminate].
  destruct (pool_step_within i g g1 ns Hns Hstep) as (ns' & Hns' & Hsum).
  intros Hrun. specialize (IH g1 ns' Hns' Hrun). lia.
Qed.

(** From a disciplined pool every request can be brought to its answer. *)
Lemma completes (allowed : bool -> forall X, cmd X -> bool) (n : nat) (g : pool)
    (ns : list nat) :
  pool_ok allowed g ->
  (forall j, owner g = Some j -> is_Some (threads g !! j)) ->
  Forall2 thread_within ns (threads g) ->
  (sum_list ns <= n)%nat ->
  exists sched g',
    run_schedule w sched g = Some g'
    /\ forallb finished (threads g') = true /\ owner g' = None.
Proof.
  revert g ns. induction n as [| n IH]; intros g ns Hok Hvalid Hns Hsum.
  - destruct (progress w allowed g Hok Hvalid) as [Hdone | (i & g1 & Hstep)].
    + exists [], g. auto.
    + destruct (pool_step_within i g g1 ns Hns Hstep) as (ns' & _ & Hdec). lia.
  - destruct (progress w allowed g Hok Hvalid) as [Hdone | (i & g1 & Hstep)].
    + exists [], g. auto.
    + destruct (pool_step_within i g g1 ns Hns Hstep) as (ns' & Hns' & Hdec).
      destruct (IH g1 ns' (pool_step_ok allowed w i g g1 Hok Hstep)
                  (owner_step w i g g1 Hvalid Hstep) Hns' ltac:(lia))
        as (sched & g' & Hrun & Hdone).
      exists (i :: sched), g'. simpl. rewrite Hstep. auto.
Qed.

End Bounds.

(** However the goroutines are scheduled, a write moves at most eight
    times, a delete three times and a read twice (a token call being two
    moves): a schedule of the requests is never longer than the sum of
    these, whatever the world answers. *)
Theorem bounded_schedules (w : world) (reqs : list (Operation * FieldData))
    (s : gmap string string) (sched : list nat) (g : pool) :
  run_schedule w sched (start reqs s) = Some g ->
  (length sched <= sum_list ((fun r => budget (fst r)) <$> reqs))%nat.
Proof. apply schedule_within, start_within. Qed.

Lemma bounded_schedules_witness :
  (length [0; 0; 0; 0; 0; 0]%nat
   <= sum_list ((fun r => budget (fst r)) <$> samples.write_and_delete))%nat.
Proof.
  destruct (run_schedule samples.healthy [0; 0; 0; 0; 0; 0]%nat
              (start samples.write_and_delete ∅)) as [g |] eqn:Hrun;
    [| vm_compute in Hrun; discriminate].
  exact (bounded_schedules samples.healthy samples.write_and_delete ∅ _ g Hrun).
Defined.

(** No request waits for ever: from wherever a schedule of writes and
    deletes has got to, the goroutines can be scheduled on so that every
    request has its answer and the mutex is free. *)
Theorem requests_complete (w : world) (reqs : list (Operation * FieldData))
    (s : gmap string string) (sched : list nat) (g : pool) :
  Forall (fun r => fst r <> ReadOperation) reqs ->
  run_schedule w sched (start reqs s) = Some g ->
  exists sched' g',
    run_schedule w sched' g = Some g'
    /\ forallb finished (threads g') = true /\ owner g' = None.
Proof.
  intros Hreqs Hrun.
  assert (Hns : exists ns, Forall2 thread_within ns (threads g)).
  { clear Hreqs.
    generalize (start_within reqs s). generalize ((fun r => budget (fst r)) <$> reqs).
    revert Hrun. generalize (start reqs s). clear reqs s.
    induction sched as [| i sched IH]; simpl; intros g0 Hrun ns Hns.
    - injection Hrun as <-. eauto.
    - destruct (pool_step w i g0) as [g1 |] eqn:Hstep; [| discriminate].
      destruct (pool_step_within w i g0 g1 ns Hns Hstep) as (ns' & Hns' & _).
      eapply IH; eassumption. }
  destruct Hns as [ns Hns].
  eapply (completes w calls_unlocked (sum_list ns) g ns).
  - eapply run_schedule_ok; [apply start_ok; exact Hreqs | exact Hrun].
  - eapply owner_schedule; [| exact Hrun]. simpl. discriminate.
  - exact Hns.
  - lia.
Qed.

Lemma requests_complete_witness :
  exists sched' g',
    run_schedule samples.healthy sched'
      (mkPool [Active (credsUpdateOperation samples.with_code);
               Active (credsDeleteOperation samples.name_only)] ∅ None)
    = Some g'
    /\ forallb finished (threads g') = true /\ owner g' = None.
Proof.
  assert (Hreqs : Forall (fun r => fst r <> ReadOperation) samples.write_and_delete)
    by (repeat constructor; discriminate).
  exact (requests_complete samples.healthy samples.write_and_delete ∅ [] _ Hreqs eq_refl).
Defined.

(** ** What changes the storage *)

Lemma update_no_helper (data : FieldData) :
  disciplined no_helper false (credsUpdateOperation data).
Proof.
  unfold credsUpdateOperation, storeToken, locked, call, mbind, prog_bind, mret,
    prog_ret.
  simpl. split; [reflexivity |].
  intros [[c |] | err]; simpl; [| reflexivity | reflexivity].
  split; [reflexivity |].
  intros [p | err]; simpl; [| reflexivity].
  destruct (negb (IsAuthorizationRequired p)); simpl; [reflexivity |].
  destruct (GetOk data "code") as [code |];
    destruct (GetOk data "refresh_token") as [rt |]; simpl; try reflexivity.
  all: split; [reflexivity |].
  all: intros [tok | err]; simpl.
  all: try (destruct err; simpl; try reflexivity;
            split; [reflexivity |]; intros _; reflexivity).
  all: split; [reflexivity |]; intros _.
  all: split; [reflexivity |].
  all: intros [entry | err]; simpl.
  all: try (split; [reflexivity |]; intros _; reflexivity).
  all: split; [reflexivity |].
  all: intros [err |]; simpl; (split; [reflexivity |]); intros _; reflexivity.
Qed.

Lemma delete_no_helper (data : FieldData) :
  disciplined no_helper false (credsDeleteOperation data).
Proof.
  unfold credsDeleteOperation, locked, call, mbind, prog_bind, mret, prog_ret. simpl.
  split; [reflexivity |]. intros _. split; [reflexivity |].
  intros [err |]; simpl; (split; [reflexivity |]); intros _; reflexivity.
Qed.

Lemma start_no_helper (reqs : list (Operation * FieldData)) (s : gmap string string) :
  Forall (fun r => fst r <> ReadOperation) reqs ->
  pool_ok no_helper (start reqs s).
Proof.
  intros Hreqs i t. unfold start. simpl. rewrite list_lookup_fmap.
  destruct (reqs !! i) as [[op data] |] eqn:Hi; simpl; [| discriminate].
  intros [= <-]. simpl.
  pose proof (Forall_lookup_1 _ _ _ _ Hreqs Hi) as Hop. simpl in Hop.
  destruct op; simpl; [contradiction | apply update_no_helper
                       | apply delete_no_helper].
Qed.

(** The storage under a move of a goroutine that keeps the discipline. *)
Lemma thread_step_storage (w : world) (i : nat) (t t' : thread)
    (s s' : gmap string string) (o o' : option nat) :
  thread_ok no_helper (bool_decide (o = Some i)) t ->
  thread_step w i t s o = Some (t', s', o') ->
  s' = s
  \/ (o = Some i /\ o' = Some i /\ about_to_write t = true
      /\ ((exists key bytes, s' = <[key := bytes]> s)
          \/ (exists key, s' = delete key s))).
Proof.
  destruct t as [[r | X c k] | call k]; simpl.
  - discriminate.
  - destruct c; simpl.
    + intros _. destruct o; [discriminate |]. intros [= _ <- _]. left. reflexivity.
    + intros _. destruct (bool_decide (o = Some i)); [| discriminate].
      intros [= _ <- _]. left. reflexivity.
    + intros _ [= _ <- _]. left. reflexivity.
    + intros _ [= _ <- _]. left. reflexivity.
    + intros _ [= _ <- _]. left. reflexivity.
    + intros _ [= _ <- _]. left. reflexivity.
    + intros _ [= _ <- _]. left. reflexivity.
    + intros [Hal _]. unfold no_helper, calls_unlocked in Hal. simpl in Hal.
      destruct (bool_decide (o = Some i)) eqn:Ho; [| discriminate].
      apply bool_decide_eq_true_1 in Ho.
      destruct (w_put w entry); intros [= _ <- <-]; [left; reflexivity |].
      right. split; [exact Ho |]. split; [exact Ho |]. split; [reflexivity |].
      left. eauto.
    + intros [Hal _]. unfold no_helper, calls_unlocked in Hal. simpl in Hal.
      destruct (bool_decide (o = Some i)) eqn:Ho; [| discriminate].
      apply bool_decide_eq_true_1 in Ho.
      destruct (w_delete w key); intros [= _ <- <-]; [left; reflexivity |].
      right. split; [exact Ho |]. split; [exact Ho |]. split; [reflexivity |].
      right. eauto.
    + intros [Hal _]. unfold no_helper in Hal. simpl in Hal.
      destruct (bool_decide (o = Some i)); simpl in Hal; discriminate.
    + intros _ [= _ <- _]. left. reflexivity.
  - intros _ [= _ <- _]. left. reflexivity.
Qed.

(** On any schedule of writes and deletes, a move of a goroutine leaves
    the storage as it was unless the goroutine owns the mutex, keeps it
    over the move, and the move is its [Put] or its [Delete], which then
    sets or removes one key. *)
Theorem storage_moves (w : world) (reqs : list (Operation * FieldData))
    (s : gmap string string) (sched : list nat) (g g' : pool) (i : nat) :
  Forall (fun r => fst r <> ReadOperation) reqs ->
  run_schedule w sched (start reqs s) = Some g ->
  pool_step w i g = Some g' ->
  shared g' = shared g
  \/ (owner g = Some i /\ owner g' = Some i
      /\ (exists t, threads g !! i = Some t /\ about_to_write t = true)
      /\ ((exists key bytes, shared g' = <[key := bytes]> (shared g))
          \/ (exists key, shared g' = delete key (shared g)))).
Proof.
  intros Hreqs Hrun.
  assert (Hok : pool_ok no_helper g).
  { eapply run_schedule_ok; [apply start_no_helper; exact Hreqs | exact Hrun]. }
  unfold pool_step.
  destruct (threads g !! i) as [t |] eqn:Ht; [| discriminate].
  destruct (thread_step w i t (shared g) (owner g)) as [[[t' s'] o'] |] eqn:Hs;
    [| discriminate].
  intros [= <-]. simpl.
  destruct (thread_step_storage w i t t' _ _ _ _ (Hok i t Ht) Hs)
    as [-> | (Ho & Ho' & Hw & Hch)]; [left; reflexivity |].
  right. split; [exact Ho |]. split; [exact Ho' |]. split; [eauto |]. exact Hch.
Qed.

Lemma storage_moves_witness :
  exists g g',
    run_schedule samples.healthy [0; 0; 0; 0; 0; 0]%nat
      (start samples.write_and_delete ∅) = Some g
    /\ pool_step samples.healthy 0 g = Some g'
    /\ (shared g' = shared g
        \/ (owner g = Some 0%nat /\ owner g' = Some 0%nat
            /\ (exists t, threads g !! 0%nat = Some t /\ about_to_write t = true)
            /\ ((exists key bytes, shared g' = <[key := bytes]> (shared g))
                \/ (exists key, shared g' = delete key (shared g))))).
Proof.
  assert (Hreqs : Forall (fun r => fst r <> ReadOperation) samples.write_and_delete)
    by (repeat constructor; discriminate).
  destruct (run_schedule samples.healthy [0; 0; 0; 0; 0; 0]%nat
              (start samples.write_and_delete ∅)) as [g |] eqn:Hrun;
    [| vm_compute in Hrun; discriminate].
  destruct (pool_step samples.healthy 0 g) as [g' |] eqn:Hstep.
  - exists g, g'. split; [reflexivity |]. split; [exact Hstep |].
    exact (storage_moves samples.healthy samples.write_and_delete ∅ _ g g' 0%nat
             Hreqs Hrun Hstep).
  - exfalso. revert Hstep. injection Hrun as <-. vm_compute. discriminate.
Defined.

End mutex_more.
